(** * temporal-superjson-payload-converter: the payload envelope and its byte codec

    A shallow embedding of [src/encoding.ts] (the byte codec [encode] /
    [decode]) and of the converter module ([SuperJsonPayloadConverter] with
    [toPayload] / [fromPayload], and the exported composite
    [payloadConverter]).

    - JavaScript strings are sequences of UTF-16 code units ([list Z]);
      byte arrays ([Uint8Array]) are sequences of octets ([list Z]).
    - [TextEncoder] and [TextDecoder] are embedded concretely, following the
      WHATWG Encoding standard for the two objects the source constructs:
      [new TextEncoder()] and [new TextDecoder()] (label utf-8, not fatal,
      [ignoreBOM] false).
    - [JSON.stringify], [JSON.parse], [superjson.serialize],
      [superjson.deserialize] and the SDK constant [METADATA_ENCODING_KEY]
      are not part of the sources: they are the fields of the class [Host],
      and every fact used about them is a stated hypothesis.
    - JavaScript numbers (IEEE-754 doubles) are carried opaquely: the type
      [number] is a parameter. *)

From Stdlib Require Import ZArith List Lia Bool.
From stdpp Require Import base option list gmap strings.

Local Open Scope Z_scope.
Set Warnings "-register-all".

(** ** JavaScript strings and byte arrays *)

(** A JavaScript string: UTF-16 code units, each in [0, 0xFFFF]. *)
Abbreviation jsstring := (list Z) (only parsing).

(** A [Uint8Array]: octets, each in [0, 0xFF]. *)
Abbreviation bytes := (list Z) (only parsing).

(** An ASCII literal as a JavaScript string. *)
Definition str (s : string) : jsstring :=
  map (fun a => Z.of_N (Ascii.N_of_ascii a)) (String.list_ascii_of_string s).

(** An ASCII literal of JSON text, with ['] written for the double quote. *)
Definition json_text (s : string) : jsstring :=
  map (fun c => if c =? 39 then 34 else c) (str s).

Definition starts_with_bom (s : jsstring) : bool :=
  match s with
  | c :: _ => c =? 0xFEFF
  | [] => false
  end.

Module Encoding.

(** *** Code units and scalar values *)

Definition is_code_unit (u : Z) : bool := (0 <=? u) && (u <=? 0xFFFF).
Definition is_lead_surrogate (u : Z) : bool := (0xD800 <=? u) && (u <=? 0xDBFF).
Definition is_trail_surrogate (u : Z) : bool := (0xDC00 <=? u) && (u <=? 0xDFFF).
Definition is_surrogate (u : Z) : bool := (0xD800 <=? u) && (u <=? 0xDFFF).

(** A Unicode scalar value: a code point that is not a surrogate. *)
Definition is_scalar (c : Z) : bool :=
  (0 <=? c) && (c <=? 0x10FFFF) && negb (is_surrogate c).

(** A well-formed string: every code unit is in range and every surrogate
    is half of a lead/trail pair. *)
Fixpoint well_formed (s : jsstring) : bool :=
  match s with
  | [] => true
  | u :: rest =>
      if is_lead_surrogate u then
        match rest with
        | l :: rest' => is_trail_surrogate l && well_formed rest'
        | [] => false
        end
      else is_code_unit u && negb (is_trail_surrogate u) && well_formed rest
  end.

(** Conversion of a JavaScript string to a sequence of scalar values
    (WebIDL [USVString]): a surrogate pair is combined, a lone surrogate
    becomes U+FFFD. *)
Fixpoint to_scalars (s : jsstring) : list Z :=
  match s with
  | [] => []
  | u :: rest =>
      if is_lead_surrogate u then
        match rest with
        | l :: rest' =>
            if is_trail_surrogate l
            then (0x10000 + Z.shiftl (u - 0xD800) 10 + (l - 0xDC00)) :: to_scalars rest'
            else 0xFFFD :: to_scalars rest
        | [] => [0xFFFD]
        end
      else if is_trail_surrogate u then 0xFFFD :: to_scalars rest
      else u :: to_scalars rest
  end.

(** Code units of one code point. *)
Definition units_of_scalar (c : Z) : jsstring :=
  if c <=? 0xFFFF then [c]
  else [0xD800 + Z.shiftr (c - 0x10000) 10; 0xDC00 + Z.land (c - 0x10000) 0x3FF].

Definition from_scalars (l : list Z) : jsstring := flat_map units_of_scalar l.

(** *** UTF-8 encoder *)

(** The continuation bytes of a code point, most significant first:
    [0x80 | ((c >> 6*(count-1)) & 0x3F)] while [count > 0]. *)
Fixpoint continuation_bytes (c : Z) (count : nat) : bytes :=
  match count with
  | O => []
  | S k => Z.lor 0x80 (Z.land (Z.shiftr c (6 * Z.of_nat k)) 0x3F) :: continuation_bytes c k
  end.

Definition utf8_encode_scalar (c : Z) : bytes :=
  if c <=? 0x7F then [c]
  else
    let '(count, offset) :=
      if c <=? 0x7FF then (1%nat, 0xC0)
      else if c <=? 0xFFFF then (2%nat, 0xE0)
      else (3%nat, 0xF0) in
    (Z.shiftr c (6 * Z.of_nat count) + offset) :: continuation_bytes c count.

Definition utf8_encode (l : list Z) : bytes := flat_map utf8_encode_scalar l.

(** *** UTF-8 decoder (replacement error mode) *)

Record decoder := Decoder {
  code_point : Z;
  bytes_seen : Z;
  bytes_needed : Z;
  lower_boundary : Z;
  upper_boundary : Z
}.

Definition decoder_init : decoder := Decoder 0 0 0 0x80 0xBF.

Definition in_range (lo hi b : Z) : bool := (lo <=? b) && (b <=? hi).

(** The handler when no continuation byte is pending. *)
Definition handle_lead (b : Z) : decoder * list Z :=
  if in_range 0x00 0x7F b then (decoder_init, [b])
  else if in_range 0xC2 0xDF b then
    (Decoder (Z.land b 0x1F) 0 1 0x80 0xBF, [])
  else if in_range 0xE0 0xEF b then
    (Decoder (Z.land b 0xF) 0 2
       (if b =? 0xE0 then 0xA0 else 0x80)
       (if b =? 0xED then 0x9F else 0xBF), [])
  else if in_range 0xF0 0xF4 b then
    (Decoder (Z.land b 0x7) 0 3
       (if b =? 0xF0 then 0x90 else 0x80)
       (if b =? 0xF4 then 0x8F else 0xBF), [])
  else (decoder_init, [0xFFFD]).

(** One step of the decoder.  A byte outside the expected boundaries ends
    the pending sequence with an error (U+FFFD) and is then processed
    again from the initial state. *)
Definition handle_byte (d : decoder) (b : Z) : decoder * list Z :=
  if bytes_needed d =? 0 then handle_lead b
  else if negb (in_range (lower_boundary d) (upper_boundary d) b) then
    let '(d', out) := handle_lead b in (d', 0xFFFD :: out)
  else
    let cp := Z.lor (Z.shiftl (code_point d) 6) (Z.land b 0x3F) in
    let seen := bytes_seen d + 1 in
    if seen =? bytes_needed d then (decoder_init, [cp])
    else (Decoder cp seen (bytes_needed d) 0x80 0xBF, []).

Fixpoint utf8_run (d : decoder) (b : bytes) : list Z :=
  match b with
  | [] => if bytes_needed d =? 0 then [] else [0xFFFD]
  | x :: rest => let '(d', out) := handle_byte d x in out ++ utf8_run d' rest
  end.

Definition utf8_decode (b : bytes) : list Z := utf8_run decoder_init b.

(** [TextDecoder] with [ignoreBOM] false: a U+FEFF that is the first code
    point of the output is dropped. *)
Definition strip_bom (l : list Z) : list Z :=
  match l with
  | c :: rest => if c =? 0xFEFF then rest else l
  | [] => []
  end.

(** *** The exported functions of [src/encoding.ts] *)

(** [encode = (s) => textEncoder.encode(s)] *)
Definition encode (s : jsstring) : bytes := utf8_encode (to_scalars s).

(** [decode = (b) => textDecoder.decode(b)] *)
Definition decode (b : bytes) : jsstring := from_scalars (strip_bom (utf8_decode b)).

End Encoding.

Import Encoding.

(** ** Values *)

Section Values.

Variable number : Type.

(** The JSON-compatible tree ([JSONValue] of superjson, the result type of
    [JSON.parse]).  An object keeps its fields in insertion order. *)
Inductive JSONValue : Type :=
| JNull
| JBoolean (b : bool)
| JNumber (n : number)
| JString (s : jsstring)
| JArray (items : list JSONValue)
| JObject (fields : list (jsstring * JSONValue)).

(** The JavaScript values the converter is used on.  A [Date] is carried
    by its [toISOString()] rendering, a [BigInt] by its integer; sets and
    maps keep insertion order. *)
Inductive value : Type :=
| VUndefined
| VNull
| VBoolean (b : bool)
| VNumber (n : number)
| VString (s : jsstring)
| VBigInt (z : Z)
| VDate (iso : jsstring)
| VUint8Array (b : bytes)
| VArray (items : list value)
| VObject (fields : list (jsstring * value))
| VSet (members : list value)
| VMap (entries : list (value * value)).

(** A parsed JSON tree seen as a JavaScript value ([json as T]). *)
Fixpoint value_of_json (j : JSONValue) : value :=
  match j with
  | JNull => VNull
  | JBoolean b => VBoolean b
  | JNumber n => VNumber n
  | JString s => VString s
  | JArray items => VArray (map value_of_json items)
  | JObject fields => VObject (map (fun kv => (fst kv, value_of_json (snd kv))) fields)
  end.

(** Values made of [null], booleans, numbers, strings, arrays and plain
    objects only. *)
Fixpoint plain_json (v : value) : bool :=
  match v with
  | VNull | VBoolean _ | VNumber _ | VString _ => true
  | VArray items => forallb plain_json items
  | VObject fields => forallb (fun kv => plain_json (snd kv)) fields
  | _ => false
  end.

(** Values with a date, a map, a set or an arbitrary-precision integer
    somewhere inside. *)
Fixpoint contains_rich (v : value) : bool :=
  match v with
  | VBigInt _ | VDate _ | VSet _ | VMap _ => true
  | VArray items => existsb contains_rich items
  | VObject fields => existsb (fun kv => contains_rich (snd kv)) fields
  | _ => false
  end.

(** [SuperJSONResult]: [{ json, meta? }]. *)
Record SuperJSONResult := { json : JSONValue; meta : option JSONValue }.

End Values.

Arguments JNull {number}.
Arguments JBoolean {number} b.
Arguments JNumber {number} n.
Arguments JString {number} s.
Arguments JArray {number} items.
Arguments JObject {number} fields.
Arguments VUndefined {number}.
Arguments VNull {number}.
Arguments VBoolean {number} b.
Arguments VNumber {number} n.
Arguments VString {number} s.
Arguments VBigInt {number} z.
Arguments VDate {number} iso.
Arguments VUint8Array {number} b.
Arguments VArray {number} items.
Arguments VObject {number} fields.
Arguments VSet {number} members.
Arguments VMap {number} entries.
Arguments value_of_json {number} j.
Arguments plain_json {number} v.
Arguments contains_rich {number} v.
Arguments json {number} s.
Arguments meta {number} s.

(** ** Payloads and outcomes *)

(** [Payload]: [{ metadata?: Record<string, Uint8Array> | null,
    data?: Uint8Array | null }]. *)
Record Payload := {
  metadata : option (gmap (list Z) (list Z));
  data : option (list Z)
}.

Inductive exception :=
| ValueError (message : string)   (* thrown by the converter itself *)
| SyntaxError                     (* thrown by [JSON.parse] *)
| SuperJSONError.                 (* thrown by the superjson dependency *)

Inductive outcome (A : Type) :=
| Return (a : A)
| Throw (e : exception).
Arguments Return {A} a.
Arguments Throw {A} e.

(** ** The host: what the converter imports *)

(** [None] stands for a thrown exception: a [SyntaxError] of [JSON.parse],
    a failure of the superjson dependency. *)
Class Host (number : Type) := {
  JSON_stringify : JSONValue number -> jsstring;
  JSON_parse : jsstring -> option (JSONValue number);
  superjson_serialize : value number -> option (SuperJSONResult number);
  superjson_deserialize : SuperJSONResult number -> option (value number);
  METADATA_ENCODING_KEY : jsstring
}.

(** ** The converter *)

(** [export const SUPERJSON_META_KEY = 'superjson-meta'] *)
Definition SUPERJSON_META_KEY : jsstring := str "superjson-meta".

(** [const ENCODING = 'json/plain'] *)
Definition ENCODING : jsstring := str "json/plain".

Section Converter.
Context {number : Type} `{Host number}.

(** [SuperJsonPayloadConverter.toPayload]:
<<
    if (value === undefined) return undefined
    const { json, meta } = superjson.serialize(value)
    const metadata = { [METADATA_ENCODING_KEY]: encode(ENCODING) }
    if (meta !== undefined) {
      metadata[SUPERJSON_META_KEY] = encode(JSON.stringify(meta))
    }
    return { metadata, data: encode(JSON.stringify(json)) }
>> *)
Definition toPayload (v : value number) : outcome (option Payload) :=
  match v with
  | VUndefined => Return None
  | _ =>
      match superjson_serialize v with
      | None => Throw SuperJSONError
      | Some r =>
          let metadata : gmap (list Z) (list Z) :=
            {[ METADATA_ENCODING_KEY := encode ENCODING ]} in
          let metadata :=
            match meta r with
            | Some m => <[ SUPERJSON_META_KEY := encode (JSON_stringify m) ]> metadata
            | None => metadata
            end in
          Return (Some {| metadata := Some metadata;
                          data := Some (encode (JSON_stringify (json r))) |})
      end
  end.

(** The metadata object [toPayload] builds, as a function of the result
    of [superjson.serialize]. *)
Definition metadata_of (r : SuperJSONResult number) : gmap (list Z) (list Z) :=
  match meta r with
  | Some m => <[ SUPERJSON_META_KEY := encode (JSON_stringify m) ]>
                {[ METADATA_ENCODING_KEY := encode ENCODING ]}
  | None => {[ METADATA_ENCODING_KEY := encode ENCODING ]}
  end.

(** [SuperJsonPayloadConverter.fromPayload]:
<<
    if (!payload.data) throw new ValueError('Payload data is missing')
    const json = JSON.parse(decode(payload.data))
    const metaRaw = payload.metadata?.[SUPERJSON_META_KEY]
    if (!metaRaw) return json as T
    const meta = JSON.parse(decode(metaRaw))
    return superjson.deserialize({ json, meta })
>>
    A [Uint8Array] is an object, hence truthy even when empty: both guards
    test presence only. *)
Definition fromPayload (payload : Payload) : outcome (value number) :=
  match data payload with
  | None => Throw (ValueError "Payload data is missing")
  | Some d =>
      match JSON_parse (decode d) with
      | None => Throw SyntaxError
      | Some j =>
          match metadata payload ≫= (λ m, m !! SUPERJSON_META_KEY) with
          | None => Return (value_of_json j)
          | Some metaRaw =>
              match JSON_parse (decode metaRaw) with
              | None => Throw SyntaxError
              | Some m =>
                  match superjson_deserialize {| json := j; meta := Some m |} with
                  | Some v => Return v
                  | None => Throw SuperJSONError
                  end
              end
          end
      end
  end.

(** *** Properties of the host that the laws below rely on *)

(** The text [JSON.stringify] gives for [j] is a well-formed string that
    does not begin with U+FEFF, and [JSON.parse] reads it back. *)
Definition json_text_faithful (j : JSONValue number) : Prop :=
  well_formed (JSON_stringify j) = true ∧
  starts_with_bom (JSON_stringify j) = false ∧
  JSON_parse (JSON_stringify j) = Some j.

(** [superjson.deserialize] is the inverse of [superjson.serialize]. *)
Definition exact_inverse : Prop :=
  ∀ v r, superjson_serialize v = Some r → superjson_deserialize r = Some v.

(** A result without manifest carries the value itself as its tree. *)
Definition manifest_free_is_plain (v : value number) (r : SuperJSONResult number) : Prop :=
  meta r = None → value_of_json (json r) = v.

(** The round trip through the payload succeeds at [v]. *)
Definition round_trip (v : value number) : Prop :=
  ∃ p, toPayload v = Return (Some p) ∧ fromPayload p = Return v.

End Converter.

(** ** The composite converter *)

(** The three converter kinds of the exported chain. *)
Inductive converter :=
| UndefinedPayloadConverter
| BinaryPayloadConverter
| SuperJsonPayloadConverter.

(** The payloads the two peers answer with; their contents play no part
    in the dispatch. *)
Class Peers := {
  undefined_payload : Payload;
  binary_payload : bytes → Payload
}.

Section Composite.
Context {number : Type} `{Host number} `{Peers}.

(** Modelled from the spec: the encode step of the two peer converters,
    which belong to the SDK ([UndefinedPayloadConverter],
    [BinaryPayloadConverter]).  The absent-value handler accepts
    [undefined] only, the raw-binary handler accepts byte buffers only; a
    converter declines by returning no payload. *)
Definition converter_toPayload (c : converter) (v : value number) : outcome (option Payload) :=
  match c with
  | UndefinedPayloadConverter =>
      match v with
      | VUndefined => Return (Some undefined_payload)
      | _ => Return None
      end
  | BinaryPayloadConverter =>
      match v with
      | VUint8Array b => Return (Some (binary_payload b))
      | _ => Return None
      end
  | SuperJsonPayloadConverter => toPayload v
  end.

(** Modelled from the spec: the encode step of the SDK's composite
    dispatcher ([CompositePayloadConverter.toPayload]).  Converters are
    tried in their declared order and the first that returns a defined
    payload is used.  The first component lists the converters whose
    encode step ran.  What the dispatcher does when every converter
    declines is left open by the spec; here it has no payload to give. *)
Fixpoint dispatch (converters : list converter) (v : value number)
  : list converter * outcome (option Payload) :=
  match converters with
  | [] => ([], Return None)
  | c :: rest =>
      match converter_toPayload c v with
      | Return None => let '(tried, result) := dispatch rest v in (c :: tried, result)
      | result => ([c], result)
      end
  end.

(** [export const payloadConverter = new CompositePayloadConverter(
      new UndefinedPayloadConverter(), new BinaryPayloadConverter(),
      new SuperJsonPayloadConverter())] *)
Definition payloadConverter : list converter :=
  [UndefinedPayloadConverter; BinaryPayloadConverter; SuperJsonPayloadConverter].

End Composite.

(** ** A reference host

    An executable instance of [Host] with [number := Z]: a JSON printer
    and parser for trees with integer numbers, and a structural
    serializer that moves dates, sets, maps, big integers, byte arrays
    and [undefined] into a manifest.  It is used to run the converter on
    the test vectors of the repository. *)

Module Reference.

(** *** JSON text *)

Definition hex_digit (d : Z) : Z := if d <? 10 then 48 + d else 87 + d.

Definition unicode_escape (u : Z) : jsstring :=
  str "\u" ++ [hex_digit (Z.shiftr u 12 mod 16); hex_digit (Z.shiftr u 8 mod 16);
               hex_digit (Z.shiftr u 4 mod 16); hex_digit (u mod 16)].

Definition quote_unit (u : Z) : jsstring :=
  if u =? 0x08 then str "\b"
  else if u =? 0x09 then str "\t"
  else if u =? 0x0A then str "\n"
  else if u =? 0x0C then str "\f"
  else if u =? 0x0D then str "\r"
  else if u =? 0x22 then [0x5C; 0x22]
  else if u =? 0x5C then [0x5C; 0x5C]
  else if u <? 0x20 then unicode_escape u
  else [u].

Fixpoint quote_units (s : jsstring) : jsstring :=
  match s with
  | [] => []
  | u :: rest =>
      if is_lead_surrogate u then
        match rest with
        | l :: rest' =>
            if is_trail_surrogate l then u :: l :: quote_units rest'
            else unicode_escape u ++ quote_units rest
        | [] => unicode_escape u
        end
      else if is_trail_surrogate u then unicode_escape u ++ quote_units rest
      else quote_unit u ++ quote_units rest
  end.

Definition quote (s : jsstring) : jsstring := [0x22] ++ quote_units s ++ [0x22].

Fixpoint decimal_digits (fuel : nat) (n : Z) (acc : jsstring) : jsstring :=
  match fuel with
  | O => acc
  | S f =>
      let acc' := (48 + n mod 10) :: acc in
      if n <? 10 then acc' else decimal_digits f (n / 10) acc'
  end.

Definition decimal (z : Z) : jsstring :=
  let digits n := decimal_digits (S (Z.to_nat (Z.log2 n))) n [] in
  if z <? 0 then 45 :: digits (- z) else digits z.

Fixpoint join (sep : jsstring) (parts : list jsstring) : jsstring :=
  match parts with
  | [] => []
  | [p] => p
  | p :: rest => p ++ sep ++ join sep rest
  end.

Fixpoint stringify (j : JSONValue Z) : jsstring :=
  match j with
  | JNull => str "null"
  | JBoolean true => str "true"
  | JBoolean false => str "false"
  | JNumber n => decimal n
  | JString s => quote s
  | JArray items => str "[" ++ join (str ",") (map stringify items) ++ str "]"
  | JObject fields =>
      str "{" ++ join (str ",") (map (fun kv => quote (fst kv) ++ str ":" ++ stringify (snd kv)) fields)
        ++ str "}"
  end.

Definition is_ws (c : Z) : bool :=
  (c =? 0x20) || (c =? 0x09) || (c =? 0x0A) || (c =? 0x0D).

Fixpoint skip_ws (s : jsstring) : jsstring :=
  match s with
  | c :: rest => if is_ws c then skip_ws rest else s
  | [] => []
  end.

Definition is_digit (c : Z) : bool := (48 <=? c) && (c <=? 57).

Fixpoint read_digits (s : jsstring) (acc : Z) : Z * jsstring :=
  match s with
  | c :: rest => if is_digit c then read_digits rest (10 * acc + (c - 48)) else (acc, s)
  | [] => (acc, [])
  end.

(** Integer literals only: a fraction or an exponent is rejected. *)
Definition parse_unsigned (s : jsstring) : option (Z * jsstring) :=
  match s with
  | c :: rest =>
      if c =? 48 then
        match rest with
        | d :: _ => if is_digit d || (d =? 46) || (d =? 69) || (d =? 101) then None else Some (0, rest)
        | [] => Some (0, rest)
        end
      else if is_digit c then
        let '(n, rest') := read_digits s 0 in
        match rest' with
        | d :: _ => if (d =? 46) || (d =? 69) || (d =? 101) then None else Some (n, rest')
        | [] => Some (n, rest')
        end
      else None
  | [] => None
  end.

Definition parse_number (s : jsstring) : option (Z * jsstring) :=
  match s with
  | c :: rest =>
      if c =? 45 then
        match parse_unsigned rest with
        | Some (n, rest') => Some (- n, rest')
        | None => None
        end
      else parse_unsigned s
  | [] => None
  end.

Definition hex_value (c : Z) : option Z :=
  if is_digit c then Some (c - 48)
  else if (97 <=? c) && (c <=? 102) then Some (c - 87)
  else if (65 <=? c) && (c <=? 70) then Some (c - 55)
  else None.

Definition parse_hex4 (s : jsstring) : option (Z * jsstring) :=
  match s with
  | a :: b :: c :: d :: rest =>
      match hex_value a, hex_value b, hex_value c, hex_value d with
      | Some a, Some b, Some c, Some d => Some (((a * 16 + b) * 16 + c) * 16 + d, rest)
      | _, _, _, _ => None
      end
  | _ => None
  end.

Definition unescape (c : Z) : option Z :=
  if c =? 0x22 then Some 0x22
  else if c =? 0x5C then Some 0x5C
  else if c =? 0x2F then Some 0x2F
  else if c =? 98 then Some 0x08
  else if c =? 102 then Some 0x0C
  else if c =? 110 then Some 0x0A
  else if c =? 114 then Some 0x0D
  else if c =? 116 then Some 0x09
  else None.

(** The characters after an opening quote, up to the closing one. *)
Fixpoint parse_chars (fuel : nat) (s : jsstring) (acc : jsstring) : option (jsstring * jsstring) :=
  match fuel with
  | O => None
  | S f =>
      match s with
      | [] => None
      | c :: rest =>
          if c =? 0x22 then Some (rev acc, rest)
          else if c =? 0x5C then
            match rest with
            | e :: rest' =>
                if e =? 117 then
                  match parse_hex4 rest' with
                  | Some (u, rest'') => parse_chars f rest'' (u :: acc)
                  | None => None
                  end
                else
                  match unescape e with
                  | Some u => parse_chars f rest' (u :: acc)
                  | None => None
                  end
            | [] => None
            end
          else if c <? 0x20 then None
          else parse_chars f rest (c :: acc)
      end
  end.

Definition parse_string (s : jsstring) : option (jsstring * jsstring) :=
  parse_chars (length s) s [].

Definition expect (lit : jsstring) (s : jsstring) : option jsstring :=
  if bool_decide (take (length lit) s = lit) then Some (drop (length lit) s) else None.

(** A key parsed twice keeps its first position and its last value. *)
Fixpoint set_field (k : jsstring) (v : JSONValue Z) (fields : list (jsstring * JSONValue Z))
  : list (jsstring * JSONValue Z) :=
  match fields with
  | [] => [(k, v)]
  | (k', v') :: rest =>
      if bool_decide (k' = k) then (k', v) :: rest else (k', v') :: set_field k v rest
  end.

Fixpoint parse_value (fuel : nat) (s : jsstring) : option (JSONValue Z * jsstring) :=
  match fuel with
  | O => None
  | S f =>
      let fix elements (n : nat) (s : jsstring) (acc : list (JSONValue Z)) {struct n} :=
        match n with
        | O => None
        | S n' =>
            match parse_value f s with
            | Some (v, r) =>
                match skip_ws r with
                | c :: r' =>
                    if c =? 44 then elements n' r' (acc ++ [v])
                    else if c =? 93 then Some (JArray (acc ++ [v]), r')
                    else None
                | [] => None
                end
            | None => None
            end
        end in
      let fix members (n : nat) (s : jsstring) (acc : list (jsstring * JSONValue Z)) {struct n} :=
        match n with
        | O => None
        | S n' =>
            match skip_ws s with
            | q :: s1 =>
                if q =? 0x22 then
                  match parse_string s1 with
                  | Some (k, s2) =>
                      match skip_ws s2 with
                      | colon :: s3 =>
                          if colon =? 58 then
                            match parse_value f s3 with
                            | Some (v, r) =>
                                match skip_ws r with
                                | c :: r' =>
                                    if c =? 44 then members n' r' (set_field k v acc)
                                    else if c =? 125 then Some (JObject (set_field k v acc), r')
                                    else None
                                | [] => None
                                end
                            | None => None
                            end
                          else None
                      | [] => None
                      end
                  | None => None
                  end
                else None
            | [] => None
            end
        end in
      match skip_ws s with
      | [] => None
      | c :: rest =>
          if c =? 0x22 then
            match parse_string rest with
            | Some (t, r) => Some (JString t, r)
            | None => None
            end
          else if c =? 91 then
            match skip_ws rest with
            | c' :: r' => if c' =? 93 then Some (JArray [], r') else elements f rest []
            | [] => None
            end
          else if c =? 123 then
            match skip_ws rest with
            | c' :: r' => if c' =? 125 then Some (JObject [], r') else members f rest []
            | [] => None
            end
          else if c =? 110 then (λ r, (JNull, r)) <$> expect (str "null") (c :: rest)
          else if c =? 116 then (λ r, (JBoolean true, r)) <$> expect (str "true") (c :: rest)
          else if c =? 102 then (λ r, (JBoolean false, r)) <$> expect (str "false") (c :: rest)
          else
            match parse_number (c :: rest) with
            | Some (n, r) => Some (JNumber n, r)
            | None => None
            end
      end
  end.

Definition parse (s : jsstring) : option (JSONValue Z) :=
  match parse_value (S (length s)) s with
  | Some (j, rest) => match skip_ws rest with [] => Some j | _ => None end
  | None => None
  end.

(** *** A structural serializer with a side-channel manifest *)

Definition tag (t : string) (inner : option (JSONValue Z)) : JSONValue Z :=
  JArray (JString (str t) :: match inner with Some o => [o] | None => [] end).

(** The annotations of the children of a container, keyed by index or by
    field name; absent when no child carries one. *)
Definition children (anns : list (jsstring * option (JSONValue Z))) : option (JSONValue Z) :=
  match omap (fun ka => match snd ka with Some a => Some (fst ka, a) | None => None end) anns with
  | [] => None
  | l => Some (JObject l)
  end.

Definition index_keys {A} (l : list A) : list jsstring :=
  map (fun i => decimal (Z.of_nat i)) (seq 0 (length l)).

(** A map entry is serialized as the two-element array of its key and value. *)
Definition walk_entry (k v : JSONValue Z * option (JSONValue Z)) : JSONValue Z * option (JSONValue Z) :=
  (JArray [fst k; fst v], children [(str "0", snd k); (str "1", snd v)]).

Fixpoint walk (v : value Z) : JSONValue Z * option (JSONValue Z) :=
  match v with
  | VUndefined => (JNull, Some (tag "undefined" None))
  | VNull => (JNull, None)
  | VBoolean b => (JBoolean b, None)
  | VNumber n => (JNumber n, None)
  | VString s => (JString s, None)
  | VBigInt z => (JString (decimal z), Some (tag "bigint" None))
  | VDate iso => (JString iso, Some (tag "Date" None))
  | VUint8Array b => (JArray (map JNumber b), Some (tag "typed-array" (Some (JString (str "Uint8Array")))))
  | VArray items =>
      let ws := map walk items in
      (JArray (map fst ws), children (zip (index_keys ws) (map snd ws)))
  | VObject fields =>
      let ws := map (fun kv => (fst kv, walk (snd kv))) fields in
      (JObject (map (fun kw => (fst kw, fst (snd kw))) ws),
       children (map (fun kw => (fst kw, snd (snd kw))) ws))
  | VSet members =>
      let ws := map walk members in
      (JArray (map fst ws), Some (tag "set" (children (zip (index_keys ws) (map snd ws)))))
  | VMap entries =>
      let ws := map (fun kv => walk_entry (walk (fst kv)) (walk (snd kv))) entries in
      (JArray (map fst ws), Some (tag "map" (children (zip (index_keys ws) (map snd ws)))))
  end.

Definition serialize (v : value Z) : option (SuperJSONResult Z) :=
  let '(j, ann) := walk v in
  Some {| json := j; meta := (fun a => JObject [(str "values", a)]) <$> ann |}.

Definition lookup_field (k : jsstring) (fields : list (jsstring * JSONValue Z)) : option (JSONValue Z) :=
  snd <$> find (fun kv => bool_decide (fst kv = k)) fields.

Definition child_annotation (inner : option (JSONValue Z)) (k : jsstring) : option (JSONValue Z) :=
  match inner with
  | Some (JObject anns) => lookup_field k anns
  | _ => None
  end.

Fixpoint parse_decimal (s : jsstring) (acc : Z) : option Z :=
  match s with
  | [] => Some acc
  | c :: rest => if is_digit c then parse_decimal rest (10 * acc + (c - 48)) else None
  end.

Definition parse_bigint (s : jsstring) : option Z :=
  match s with
  | [] => None
  | c :: rest =>
      if c =? 45 then match rest with [] => None | _ => Z.opp <$> parse_decimal rest 0 end
      else parse_decimal s 0
  end.

Definition entry_of (v : value Z) : option (value Z * value Z) :=
  match v with
  | VArray [k; x] => Some (k, x)
  | _ => None
  end.

Definition byte_of (j : JSONValue Z) : option Z :=
  match j with
  | JNumber n => if (0 <=? n) && (n <=? 255) then Some n else None
  | _ => None
  end.

Fixpoint restore (j : JSONValue Z) (ann : option (JSONValue Z)) {struct j} : option (value Z) :=
  let items_with (inner : option (JSONValue Z)) (items : list (JSONValue Z)) : option (list (value Z)) :=
    (fix go (l : list (JSONValue Z)) (i : nat) : option (list (value Z)) :=
       match l with
       | [] => Some []
       | x :: rest =>
           match restore x (child_annotation inner (decimal (Z.of_nat i))), go rest (S i) with
           | Some v, Some vs => Some (v :: vs)
           | _, _ => None
           end
       end) items O in
  match ann with
  | None => Some (value_of_json j)
  | Some (JObject anns) =>
      match j with
      | JArray items => VArray <$> items_with ann items
      | JObject fields =>
          VObject <$>
            (fix go (l : list (jsstring * JSONValue Z)) : option (list (jsstring * value Z)) :=
               match l with
               | [] => Some []
               | (k, x) :: rest =>
                   match restore x (lookup_field k anns), go rest with
                   | Some v, Some vs => Some ((k, v) :: vs)
                   | _, _ => None
                   end
               end) fields
      | _ => None
      end
  | Some (JArray (JString t :: more)) =>
      let inner := match more with [o] => Some o | _ => None end in
      if bool_decide (t = str "undefined") then Some VUndefined
      else if bool_decide (t = str "bigint") then
        match j with JString s => VBigInt <$> parse_bigint s | _ => None end
      else if bool_decide (t = str "Date") then
        match j with JString s => Some (VDate s) | _ => None end
      else if bool_decide (t = str "typed-array") then
        match j with JArray items => VUint8Array <$> mapM byte_of items | _ => None end
      else if bool_decide (t = str "set") then
        match j with JArray items => VSet <$> items_with inner items | _ => None end
      else if bool_decide (t = str "map") then
        match j with
        | JArray items => items_with inner items ≫= (λ rows, VMap <$> mapM entry_of rows)
        | _ => None
        end
      else None
  | Some _ => None
  end.

Definition deserialize (r : SuperJSONResult Z) : option (value Z) :=
  match meta r with
  | None => Some (value_of_json (json r))
  | Some (JObject [(k, ann)]) =>
      if bool_decide (k = str "values") then restore (json r) (Some ann) else None
  | Some _ => None
  end.

End Reference.

#[export] Instance reference_host : Host Z := {|
  JSON_stringify := Reference.stringify;
  JSON_parse := Reference.parse;
  superjson_serialize := Reference.serialize;
  superjson_deserialize := Reference.deserialize;
  METADATA_ENCODING_KEY := str "encoding"
|}.

#[export] Instance reference_peers : Peers := {|
  undefined_payload :=
    {| metadata := Some {[ str "encoding" := encode (str "binary/null") ]}; data := None |};
  binary_payload b :=
    {| metadata := Some {[ str "encoding" := encode (str "binary/plain") ]}; data := Some b |}
|}.

(** *** Test vectors *)

(** [{ id: 'test-123', createdAt: new Date('2024-01-01T00:00:00.000Z'),
       tags: new Set(['important', 'urgent']) }] *)
Definition scenario : value Z :=
  VObject [(str "id", VString (str "test-123"));
           (str "createdAt", VDate (str "2024-01-01T00:00:00.000Z"));
           (str "tags", VSet [VString (str "important"); VString (str "urgent")])].

Definition scenario_result : SuperJSONResult Z :=
  {| json := JObject [(str "id", JString (str "test-123"));
                      (str "createdAt", JString (str "2024-01-01T00:00:00.000Z"));
                      (str "tags", JArray [JString (str "important"); JString (str "urgent")])];
     meta := Some (JObject [(str "values",
               JObject [(str "createdAt", JArray [JString (str "Date")]);
                        (str "tags", JArray [JString (str "set")])])]) |}.

(** [new Map([['tags', new Set([new Date(...)])], ['count', BigInt(42)]])] *)
Definition nested : value Z :=
  VMap [(VString (str "tags"), VSet [VDate (str "2024-06-15T12:00:00.000Z")]);
        (VString (str "count"), VBigInt 42)].

(** [new Date('2024-01-01T00:00:00.000Z')] *)
Definition new_year : value Z := VDate (str "2024-01-01T00:00:00.000Z").

(** A well-formed string with a surrogate pair and an inner U+FEFF. *)
Definition sample_string : jsstring := [0x61; 0xE9; 0x20AC; 0xD83D; 0xDE00; 0xFEFF].

Definition legacy_body : jsstring :=
  json_text "{'name':'legacy','value':123,'nested':{'foo':'bar'}}".

(** A payload written without manifest:
    [{ metadata: { encoding: encode('json/plain') }, data: encode(JSON.stringify(...)) }]. *)
Definition legacy (body : jsstring) : Payload :=
  {| metadata := Some {[ str "encoding" := encode (str "json/plain") ]};
     data := Some (encode body) |}.

(** [{ metadata: { encoding: encode('json/plain') } }], without [data]. *)
Definition no_data_payload : Payload :=
  {| metadata := Some {[ str "encoding" := encode (str "json/plain") ]}; data := None |}.

(** A payload whose [data] is [new Uint8Array(0)]. *)
Definition empty_data_payload : Payload :=
  {| metadata := Some {[ str "encoding" := encode (str "json/plain") ]}; data := Some [] |}.

(** ** Further definitions

    Predicates and test vectors used to state more properties of the byte
    codec and of the converter. *)

(** An octet. *)
Definition is_byte (b : Z) : bool := (0 <=? b) && (b <=? 0xFF).

(** An ASCII code unit. *)
Definition is_ascii (u : Z) : bool := (0 <=? u) && (u <=? 0x7F).

(** [String.prototype.toWellFormed]: every lone surrogate becomes U+FFFD. *)
Fixpoint toWellFormed (s : jsstring) : jsstring :=
  match s with
  | [] => []
  | u :: rest =>
      if is_lead_surrogate u then
        match rest with
        | l :: rest' =>
            if is_trail_surrogate l then u :: l :: toWellFormed rest'
            else 0xFFFD :: toWellFormed rest
        | [] => [0xFFFD]
        end
      else if is_trail_surrogate u then 0xFFFD :: toWellFormed rest
      else u :: toWellFormed rest
  end.

(** The shape of any string of code units: units outside the surrogate
    range, lead/trail pairs, and lone surrogates. *)
Inductive units_view : jsstring -> Prop :=
| uv_nil : units_view []
| uv_plain u rest :
    0 <= u <= 0xFFFF -> ~ (0xD800 <= u <= 0xDFFF) -> units_view rest -> units_view (u :: rest)
| uv_pair u l rest :
    0xD800 <= u <= 0xDBFF -> 0xDC00 <= l <= 0xDFFF -> units_view rest ->
    units_view (u :: l :: rest)
| uv_lone u rest :
    0xD800 <= u <= 0xDFFF ->
    (0xD800 <= u <= 0xDBFF -> ∀ l rest', rest = l :: rest' -> ~ (0xDC00 <= l <= 0xDFFF)) ->
    units_view rest -> units_view (u :: rest).

(** The code points a pending sequence can still complete to: the least
    and the greatest, from the bits read so far and the boundaries of the
    next byte. *)
Definition pending_least (d : decoder) : Z :=
  let r := bytes_needed d - bytes_seen d in
  code_point d * 64 ^ r + (lower_boundary d - 0x80) * 64 ^ (r - 1).

Definition pending_greatest (d : decoder) : Z :=
  let r := bytes_needed d - bytes_seen d in
  code_point d * 64 ^ r + (upper_boundary d - 0x80 + 1) * 64 ^ (r - 1) - 1.

(** The invariant of the decoder: no sequence pending, or a pending
    sequence of at most four bytes that can only complete to a scalar
    value. *)
Definition decoder_ok (d : decoder) : Prop :=
  bytes_needed d = 0 ∨
  (1 <= bytes_needed d <= 3 ∧ 0 <= bytes_seen d < bytes_needed d ∧
   0 <= code_point d ∧ 0x80 <= lower_boundary d ∧ upper_boundary d <= 0xBF ∧
   (0 <= pending_least d ∧ pending_greatest d < 0xD800 ∨
    0xDFFF < pending_least d ∧ pending_greatest d <= 0x10FFFF)).

(** The bytes of a pending sequence that the decoder has read. *)
Definition pending_bytes (d : decoder) : Z :=
  if bytes_needed d =? 0 then 0 else bytes_seen d + 1.

(** [public readonly encodingType = ENCODING] *)
Definition encodingType : jsstring := ENCODING.

(** ['a\uD800b\uDC00']: a lone lead and a lone trail surrogate. *)
Definition lone_surrogates : jsstring := [0x61; 0xD800; 0x62; 0xDC00].

(** The manifest of [scenario_result]. *)
Definition scenario_meta : JSONValue Z :=
  JObject [(str "values",
     JObject [(str "createdAt", JArray [JString (str "Date")]);
              (str "tags", JArray [JString (str "set")])])].

(** The payload [toPayload] builds for [scenario] on the reference host. *)
Definition scenario_payload : Payload :=
  {| metadata := Some (@metadata_of Z reference_host scenario_result);
     data := Some (encode (Reference.stringify (json scenario_result))) |}.

(** A payload whose manifest entry is [new Uint8Array(0)]. *)
Definition empty_manifest_payload : Payload :=
  {| metadata := Some (<[ SUPERJSON_META_KEY := [] ]> {[ str "encoding" := encode (str "json/plain") ]});
     data := Some (encode legacy_body) |}.

(** * Properties *)

(** ** The byte codec *)

Example encode_ascii : encode (str "json/plain") = [106; 115; 111; 110; 47; 112; 108; 97; 105; 110].
Proof. reflexivity. Qed.

Example encode_euro : encode [0x20AC] = [0xE2; 0x82; 0xAC].
Proof. reflexivity. Qed.

Example encode_pair : encode [0xD83D; 0xDE00] = [0xF0; 0x9F; 0x98; 0x80].
Proof. reflexivity. Qed.

Example decode_pair : decode [0xF0; 0x9F; 0x98; 0x80] = [0xD83D; 0xDE00].
Proof. reflexivity. Qed.

Example decode_truncated : decode [0x61; 0xE2; 0x82] = [0x61; 0xFFFD].
Proof. reflexivity. Qed.

Example decode_bom : decode (encode [0xFEFF; 0x61]) = [0x61].
Proof. reflexivity. Qed.

(** *** Bit operations as arithmetic *)

Lemma land_shifted_low a y n :
  0 <= n -> 0 <= y < 2 ^ n -> Z.land (a * 2 ^ n) y = 0.
Proof.
  intros Hn Hy. apply Z.bits_inj'. intros k Hk.
  rewrite Z.land_spec, Z.bits_0.
  destruct (Z.lt_ge_cases k n) as [Hlt|Hge].
  - rewrite Z.mul_pow2_bits_low by lia. reflexivity.
  - replace y with (y mod 2 ^ n) by (apply Z.mod_small; lia).
    rewrite Z.mod_pow2_bits_high by lia. apply andb_false_r.
Qed.

Lemma lor_shiftl_low a y n :
  0 <= n -> 0 <= y < 2 ^ n -> Z.lor (Z.shiftl a n) y = a * 2 ^ n + y.
Proof.
  intros Hn Hy.
  rewrite Z.shiftl_mul_pow2 by lia.
  pose proof (land_shifted_low a y n Hn Hy) as H0.
  rewrite <- Z.lxor_lor by exact H0.
  symmetry. apply Z.add_nocarry_lxor. exact H0.
Qed.

Lemma lor_0x80 y : 0 <= y < 64 -> Z.lor 0x80 y = 0x80 + y.
Proof.
  intros Hy. change 0x80 with (Z.shiftl 2 6) at 1.
  rewrite lor_shiftl_low by lia. reflexivity.
Qed.

Lemma land_0x3F c : Z.land c 0x3F = c mod 64.
Proof. change 0x3F with (Z.ones 6). rewrite Z.land_ones by lia. reflexivity. Qed.

Lemma land_0x3FF c : Z.land c 0x3FF = c mod 1024.
Proof. change 0x3FF with (Z.ones 10). rewrite Z.land_ones by lia. reflexivity. Qed.

Lemma land_0x1F c : Z.land c 0x1F = c mod 32.
Proof. change 0x1F with (Z.ones 5). rewrite Z.land_ones by lia. reflexivity. Qed.

Lemma land_0xF c : Z.land c 0xF = c mod 16.
Proof. change 0xF with (Z.ones 4). rewrite Z.land_ones by lia. reflexivity. Qed.

Lemma land_0x7 c : Z.land c 0x7 = c mod 8.
Proof. change 0x7 with (Z.ones 3). rewrite Z.land_ones by lia. reflexivity. Qed.

Ltac bits_to_arith :=
  repeat first
    [ rewrite land_0x3F | rewrite land_0x3FF | rewrite land_0x1F
    | rewrite land_0xF | rewrite land_0x7
    | rewrite Z.shiftr_div_pow2 by lia ].

Lemma continuation_byte c k :
  0 <= k ->
  let b := Z.lor 0x80 (Z.land (Z.shiftr c k) 0x3F) in
  b = 0x80 + (c / 2 ^ k) mod 64.
Proof.
  intros Hk b. subst b. bits_to_arith.
  apply lor_0x80. apply Z.mod_pos_bound. lia.
Qed.

(** *** The decoder on the encoder's output *)

Lemma in_range_true lo hi b : lo <= b <= hi -> in_range lo hi b = true.
Proof. unfold in_range. intros. apply andb_true_intro. split; apply Z.leb_le; lia. Qed.

Lemma in_range_false lo hi b : b < lo \/ hi < b -> in_range lo hi b = false.
Proof.
  unfold in_range. intros [H|H].
  - apply andb_false_intro1. apply Z.leb_gt. lia.
  - apply andb_false_intro2. apply Z.leb_gt. lia.
Qed.

Lemma is_scalar_spec c :
  is_scalar c = true <-> (0 <= c < 0xD800 \/ 0xDFFF < c <= 0x10FFFF).
Proof.
  unfold is_scalar, is_surrogate.
  rewrite !andb_true_iff, negb_true_iff, andb_false_iff, !Z.leb_le, !Z.leb_gt. lia.
Qed.

(** A continuation byte inside the expected boundaries shifts six more
    bits into the pending code point. *)
Lemma handle_continuation cp seen needed lo hi y :
  0 <= y < 64 -> lo <= 0x80 + y <= hi -> needed <> 0 ->
  handle_byte (Decoder cp seen needed lo hi) (0x80 + y) =
    if seen + 1 =? needed then (decoder_init, [cp * 64 + y])
    else (Decoder (cp * 64 + y) (seen + 1) needed 0x80 0xBF, []).
Proof.
  intros Hy Hb Hn. unfold handle_byte. cbn [bytes_needed lower_boundary upper_boundary code_point bytes_seen].
  destruct (Z.eqb_spec needed 0) as [|_]; [contradiction|].
  rewrite in_range_true by lia. cbn [negb].
  rewrite land_0x3F.
  replace ((0x80 + y) mod 64) with y by (rewrite <- (Z.mod_unique (0x80 + y) 64 2 y); lia).
  rewrite lor_shiftl_low by lia. reflexivity.
Qed.

Ltac lead_case :=
  unfold handle_lead;
  repeat (first [ rewrite in_range_true by lia | rewrite in_range_false by lia ]).

Lemma handle_lead_ascii c : 0 <= c <= 0x7F -> handle_lead c = (decoder_init, [c]).
Proof. intros. lead_case. reflexivity. Qed.

Lemma handle_lead_2 x : 2 <= x < 32 ->
  handle_lead (x + 0xC0) = (Decoder x 0 1 0x80 0xBF, []).
Proof.
  intros. lead_case. rewrite land_0x1F.
  replace ((x + 0xC0) mod 32) with x by (rewrite <- (Z.mod_unique (x + 0xC0) 32 6 x); lia).
  reflexivity.
Qed.

Lemma handle_lead_3 x : 0 <= x < 16 ->
  handle_lead (x + 0xE0) =
    (Decoder x 0 2 (if x =? 0 then 0xA0 else 0x80) (if x =? 13 then 0x9F else 0xBF), []).
Proof.
  intros. lead_case. rewrite land_0xF.
  replace ((x + 0xE0) mod 16) with x by (rewrite <- (Z.mod_unique (x + 0xE0) 16 14 x); lia).
  replace (x + 0xE0 =? 0xE0) with (x =? 0) by (destruct (Z.eqb_spec x 0), (Z.eqb_spec (x + 0xE0) 0xE0); lia).
  replace (x + 0xE0 =? 0xED) with (x =? 13) by (destruct (Z.eqb_spec x 13), (Z.eqb_spec (x + 0xE0) 0xED); lia).
  reflexivity.
Qed.

Lemma handle_lead_4 x : 0 <= x <= 4 ->
  handle_lead (x + 0xF0) =
    (Decoder x 0 3 (if x =? 0 then 0x90 else 0x80) (if x =? 4 then 0x8F else 0xBF), []).
Proof.
  intros. lead_case. rewrite land_0x7.
  replace ((x + 0xF0) mod 8) with x by (rewrite <- (Z.mod_unique (x + 0xF0) 8 30 x); lia).
  replace (x + 0xF0 =? 0xF0) with (x =? 0) by (destruct (Z.eqb_spec x 0), (Z.eqb_spec (x + 0xF0) 0xF0); lia).
  replace (x + 0xF0 =? 0xF4) with (x =? 4) by (destruct (Z.eqb_spec x 4), (Z.eqb_spec (x + 0xF0) 0xF4); lia).
  reflexivity.
Qed.

Lemma continuation_bytes_1 c :
  continuation_bytes c 1 = [0x80 + c mod 64].
Proof.
  cbn [continuation_bytes]. cbn [Z.of_nat Z.mul].
  rewrite continuation_byte by lia. rewrite Z.pow_0_r, Z.div_1_r. reflexivity.
Qed.

Lemma continuation_bytes_2 c :
  continuation_bytes c 2 = [0x80 + (c / 64) mod 64; 0x80 + c mod 64].
Proof.
  change (continuation_bytes c 2) with
    (Z.lor 0x80 (Z.land (Z.shiftr c 6) 0x3F) :: continuation_bytes c 1).
  rewrite continuation_bytes_1, continuation_byte by lia. reflexivity.
Qed.

Lemma continuation_bytes_3 c :
  continuation_bytes c 3 =
    [0x80 + (c / 4096) mod 64; 0x80 + (c / 64) mod 64; 0x80 + c mod 64].
Proof.
  change (continuation_bytes c 3) with
    (Z.lor 0x80 (Z.land (Z.shiftr c 12) 0x3F) :: continuation_bytes c 2).
  rewrite continuation_bytes_2, continuation_byte by lia. reflexivity.
Qed.

Lemma utf8_run_lead rest b d out :
  handle_lead b = (d, out) ->
  utf8_run decoder_init (b :: rest) = out ++ utf8_run d rest.
Proof. intros H. cbn [utf8_run]. unfold handle_byte. cbn. rewrite H. reflexivity. Qed.

Lemma utf8_run_cont rest cp seen needed lo hi y :
  0 <= y < 64 -> lo <= 0x80 + y <= hi -> needed <> 0 ->
  utf8_run (Decoder cp seen needed lo hi) (0x80 + y :: rest) =
    if seen + 1 =? needed then (cp * 64 + y) :: utf8_run decoder_init rest
    else utf8_run (Decoder (cp * 64 + y) (seen + 1) needed 0x80 0xBF) rest.
Proof.
  intros Hy Hb Hn. cbn [utf8_run]. rewrite handle_continuation by assumption.
  destruct (seen + 1 =? needed); reflexivity.
Qed.

Lemma utf8_run_encode_scalar c rest :
  is_scalar c = true ->
  utf8_run decoder_init (utf8_encode_scalar c ++ rest) = c :: utf8_run decoder_init rest.
Proof.
  intros Hc. apply is_scalar_spec in Hc. unfold utf8_encode_scalar.
  destruct (Z.leb_spec c 0x7F) as [H1|H1].
  { cbn [app]. rewrite (utf8_run_lead _ _ _ _ (handle_lead_ascii c ltac:(lia))). reflexivity. }
  destruct (Z.leb_spec c 0x7FF) as [H2|H2].
  { rewrite continuation_bytes_1, Z.shiftr_div_pow2 by lia.
    change (2 ^ (6 * Z.of_nat 1)) with 64. cbn [app].
    pose proof (Z.div_mod c 64 ltac:(lia)) as E.
    pose proof (Z.mod_pos_bound c 64 ltac:(lia)) as B.
    rewrite (utf8_run_lead _ _ _ _ (handle_lead_2 (c / 64) ltac:(lia))). cbn [app].
    rewrite utf8_run_cont by lia. cbn [Z.add Z.eqb Pos.eqb Pos.add].
    f_equal. lia. }
  destruct (Z.leb_spec c 0xFFFF) as [H3|H3].
  { rewrite continuation_bytes_2, Z.shiftr_div_pow2 by lia.
    change (2 ^ (6 * Z.of_nat 2)) with 4096. cbn [app].
    pose proof (Z.div_mod c 64 ltac:(lia)) as E.
    pose proof (Z.mod_pos_bound c 64 ltac:(lia)) as B.
    pose proof (Z.div_mod (c / 64) 64 ltac:(lia)) as E'.
    pose proof (Z.mod_pos_bound (c / 64) 64 ltac:(lia)) as B'.
    assert (E4 : c / 4096 = c / 64 / 64) by (rewrite Z.div_div by lia; reflexivity).
    rewrite (utf8_run_lead _ _ _ _ (handle_lead_3 (c / 4096) ltac:(lia))). cbn [app].
    rewrite utf8_run_cont.
    2: lia.
    2: { destruct (Z.eqb_spec (c / 4096) 0), (Z.eqb_spec (c / 4096) 13); lia. }
    2: lia.
    cbn [Z.add Z.eqb Pos.eqb Pos.add].
    rewrite utf8_run_cont by lia. cbn [Z.add Z.eqb Pos.eqb Pos.add].
    f_equal. lia. }
  { rewrite continuation_bytes_3, Z.shiftr_div_pow2 by lia.
    change (2 ^ (6 * Z.of_nat 3)) with 262144. cbn [app].
    pose proof (Z.div_mod c 64 ltac:(lia)) as E.
    pose proof (Z.mod_pos_bound c 64 ltac:(lia)) as B.
    pose proof (Z.div_mod (c / 64) 64 ltac:(lia)) as E'.
    pose proof (Z.mod_pos_bound (c / 64) 64 ltac:(lia)) as B'.
    pose proof (Z.div_mod (c / 4096) 64 ltac:(lia)) as E''.
    pose proof (Z.mod_pos_bound (c / 4096) 64 ltac:(lia)) as B''.
    assert (E4 : c / 4096 = c / 64 / 64) by (rewrite Z.div_div by lia; reflexivity).
    assert (E5 : c / 262144 = c / 4096 / 64) by (rewrite Z.div_div by lia; reflexivity).
    rewrite (utf8_run_lead _ _ _ _ (handle_lead_4 (c / 262144) ltac:(lia))). cbn [app].
    rewrite utf8_run_cont.
    2: lia.
    2: { destruct (Z.eqb_spec (c / 262144) 0), (Z.eqb_spec (c / 262144) 4); lia. }
    2: lia.
    cbn [Z.add Z.eqb Pos.eqb Pos.add].
    rewrite utf8_run_cont by lia. cbn [Z.add Z.eqb Pos.eqb Pos.add].
    rewrite utf8_run_cont by lia. cbn [Z.add Z.eqb Pos.eqb Pos.add].
    f_equal. lia. }
Qed.

(** *** Strings and scalar values *)

Lemma lead_spec u : is_lead_surrogate u = true <-> 0xD800 <= u <= 0xDBFF.
Proof. unfold is_lead_surrogate. rewrite andb_true_iff, !Z.leb_le. tauto. Qed.

Lemma trail_spec u : is_trail_surrogate u = true <-> 0xDC00 <= u <= 0xDFFF.
Proof. unfold is_trail_surrogate. rewrite andb_true_iff, !Z.leb_le. tauto. Qed.

Lemma code_unit_spec u : is_code_unit u = true <-> 0 <= u <= 0xFFFF.
Proof. unfold is_code_unit. rewrite andb_true_iff, !Z.leb_le. tauto. Qed.

(** The shape of a well-formed string: units outside the surrogate range
    and lead/trail pairs. *)
Inductive wf_view : jsstring -> Prop :=
| wf_nil : wf_view []
| wf_bmp u rest :
    0 <= u <= 0xFFFF -> ~ (0xD800 <= u <= 0xDFFF) -> wf_view rest -> wf_view (u :: rest)
| wf_pair u l rest :
    0xD800 <= u <= 0xDBFF -> 0xDC00 <= l <= 0xDFFF -> wf_view rest ->
    wf_view (u :: l :: rest).

Lemma well_formed_view s : well_formed s = true -> wf_view s.
Proof.
  remember (length s) as n eqn:Hn.
  revert s Hn. induction n as [n IH] using lt_wf_ind. intros s Hn Hwf.
  destruct s as [|u rest]; [constructor|].
  cbn [well_formed] in Hwf.
  destruct (is_lead_surrogate u) eqn:Hu.
  - apply lead_spec in Hu. destruct rest as [|l rest']; [discriminate|].
    apply andb_true_iff in Hwf as [Hl Hr]. apply trail_spec in Hl.
    apply wf_pair; try assumption.
    apply (IH (length rest')); [subst n; cbn; lia | reflexivity | exact Hr].
  - apply andb_true_iff in Hwf as [Hwf Hr]. apply andb_true_iff in Hwf as [Hc Ht].
    apply code_unit_spec in Hc. apply negb_true_iff in Ht.
    apply wf_bmp; try assumption.
    + intros Hs.
      destruct (Z.le_gt_cases u 0xDBFF) as [Hle|Hgt].
      * assert (is_lead_surrogate u = true) by (apply lead_spec; lia). congruence.
      * assert (is_trail_surrogate u = true) by (apply trail_spec; lia). congruence.
    + apply (IH (length rest)); [subst n; cbn; lia | reflexivity | exact Hr].
Qed.

Lemma to_scalars_bmp u rest :
  ~ (0xD800 <= u <= 0xDFFF) -> to_scalars (u :: rest) = u :: to_scalars rest.
Proof.
  intros Hu. cbn [to_scalars].
  destruct (is_lead_surrogate u) eqn:E1; [apply lead_spec in E1; lia|].
  destruct (is_trail_surrogate u) eqn:E2; [apply trail_spec in E2; lia|].
  reflexivity.
Qed.

Lemma to_scalars_pair u l rest :
  0xD800 <= u <= 0xDBFF -> 0xDC00 <= l <= 0xDFFF ->
  to_scalars (u :: l :: rest) =
    (0x10000 + (u - 0xD800) * 1024 + (l - 0xDC00)) :: to_scalars rest.
Proof.
  intros Hu Hl. cbn [to_scalars].
  rewrite (proj2 (lead_spec u) Hu), (proj2 (trail_spec l) Hl).
  rewrite Z.shiftl_mul_pow2 by lia. reflexivity.
Qed.

Lemma units_of_pair u l :
  0xD800 <= u <= 0xDBFF -> 0xDC00 <= l <= 0xDFFF ->
  units_of_scalar (0x10000 + (u - 0xD800) * 1024 + (l - 0xDC00)) = [u; l].
Proof.
  intros Hu Hl. unfold units_of_scalar.
  destruct (Z.leb_spec (0x10000 + (u - 0xD800) * 1024 + (l - 0xDC00)) 0xFFFF); [lia|].
  rewrite land_0x3FF, Z.shiftr_div_pow2 by lia. change (2 ^ 10) with 1024.
  replace (0x10000 + (u - 0xD800) * 1024 + (l - 0xDC00) - 0x10000)
    with ((u - 0xD800) * 1024 + (l - 0xDC00)) by lia.
  rewrite <- (Z.div_unique ((u - 0xD800) * 1024 + (l - 0xDC00)) 1024 (u - 0xD800) (l - 0xDC00)) by lia.
  rewrite <- (Z.mod_unique ((u - 0xD800) * 1024 + (l - 0xDC00)) 1024 (u - 0xD800) (l - 0xDC00)) by lia.
  f_equal; [lia | f_equal; lia].
Qed.

Lemma from_to_scalars s : well_formed s = true -> from_scalars (to_scalars s) = s.
Proof.
  intros Hwf. apply well_formed_view in Hwf.
  induction Hwf as [|u rest Hu Hns _ IH|u l rest Hu Hl _ IH]; [reflexivity| |].
  - rewrite to_scalars_bmp by assumption. unfold from_scalars in *. cbn [flat_map].
    rewrite IH. unfold units_of_scalar.
    destruct (Z.leb_spec u 0xFFFF); [reflexivity | lia].
  - rewrite to_scalars_pair by assumption. unfold from_scalars in *. cbn [flat_map].
    rewrite IH, units_of_pair by assumption. reflexivity.
Qed.

Lemma to_scalars_scalar s :
  well_formed s = true -> Forall (fun c => is_scalar c = true) (to_scalars s).
Proof.
  intros Hwf. apply well_formed_view in Hwf.
  induction Hwf as [|u rest Hu Hns _ IH|u l rest Hu Hl _ IH]; [constructor| |].
  - rewrite to_scalars_bmp by assumption. constructor; [|exact IH].
    apply is_scalar_spec. lia.
  - rewrite to_scalars_pair by assumption. constructor; [|exact IH].
    apply is_scalar_spec. lia.
Qed.

Lemma utf8_decode_encode l :
  Forall (fun c => is_scalar c = true) l -> utf8_decode (utf8_encode l) = l.
Proof.
  unfold utf8_decode, utf8_encode.
  induction 1 as [|c l Hc _ IH]; [reflexivity|].
  cbn [flat_map]. rewrite utf8_run_encode_scalar by exact Hc. rewrite IH. reflexivity.
Qed.

Lemma from_scalars_strip_bom s :
  well_formed s = true -> from_scalars (strip_bom (to_scalars s)) = strip_bom s.
Proof.
  intros Hwf. pose proof (from_to_scalars s Hwf) as Hft.
  apply well_formed_view in Hwf.
  destruct Hwf as [|u rest Hu Hns Hr|u l rest Hu Hl Hr]; [reflexivity| |].
  - rewrite to_scalars_bmp in * by assumption. cbn [strip_bom].
    unfold from_scalars in Hft. cbn [flat_map] in Hft. unfold units_of_scalar in Hft at 1.
    destruct (Z.leb_spec u 0xFFFF); [|lia]. cbn [app] in Hft. injection Hft as Hft.
    destruct (u =? 0xFEFF); [exact Hft|].
    unfold from_scalars. cbn [flat_map]. unfold units_of_scalar at 1.
    destruct (Z.leb_spec u 0xFFFF); [|lia]. cbn [app]. f_equal. exact Hft.
  - rewrite to_scalars_pair in * by assumption. cbn [strip_bom].
    destruct (Z.eqb_spec (0x10000 + (u - 0xD800) * 1024 + (l - 0xDC00)) 0xFEFF); [lia|].
    destruct (Z.eqb_spec u 0xFEFF); [lia|]. exact Hft.
Qed.

Lemma decode_encode_strip s :
  well_formed s = true -> decode (encode s) = strip_bom s.
Proof.
  intros Hwf. unfold decode, encode.
  rewrite utf8_decode_encode by (apply to_scalars_scalar; exact Hwf).
  apply from_scalars_strip_bom. exact Hwf.
Qed.

Lemma strip_bom_no_bom s : starts_with_bom s = false -> strip_bom s = s.
Proof. destruct s as [|c rest]; [reflexivity|]. cbn. intros ->. reflexivity. Qed.

Lemma decode_encode_plain s :
  well_formed s = true -> starts_with_bom s = false -> decode (encode s) = s.
Proof. intros Hwf Hb. rewrite decode_encode_strip by exact Hwf. apply strip_bom_no_bom, Hb. Qed.

(** C7, as stated, fails: U+FEFF alone is a well-formed string, its
    encoding is EF BB BF, and the decoder drops a leading U+FEFF. *)
Lemma decode_encode_drops_leading_bom :
  well_formed [0xFEFF] = true ∧
  encode [0xFEFF] = [0xEF; 0xBB; 0xBF] ∧
  decode (encode [0xFEFF]) = [] ∧
  decode (encode [0xFEFF]) ≠ [0xFEFF].
Proof. repeat split; try reflexivity. discriminate. Qed.

(** C7 (amended): for every well-formed string [s], [decode (encode s)] is
    [s] without a leading U+FEFF; so [decode (encode s) = s] for every
    well-formed string that does not begin with U+FEFF.  [encode] and
    [decode] are total functions. *)
Theorem decode_encode_round_trip (s : jsstring) :
  well_formed s = true ->
  decode (encode s) = strip_bom s ∧
  (starts_with_bom s = false -> decode (encode s) = s).
Proof.
  intros Hwf. split; [apply decode_encode_strip, Hwf|].
  intros Hb. apply decode_encode_plain; assumption.
Qed.


(** ** Values *)

Lemma contains_rich_not_plain {number} (v : value number) :
  contains_rich v = true -> plain_json v = false.
Proof.
  revert v. fix IH 1. intros v.
  destruct v; cbn [contains_rich plain_json]; try (intros; reflexivity || discriminate).
  - induction items as [|x xs IHxs]; cbn [existsb forallb]; [discriminate|].
    intros Hx. apply orb_true_iff in Hx as [Hx|Hx].
    + rewrite (IH x Hx). reflexivity.
    + rewrite (IHxs Hx). apply andb_false_r.
  - induction fields as [|[k x] xs IHxs]; cbn [existsb forallb snd]; [discriminate|].
    intros Hx. apply orb_true_iff in Hx as [Hx|Hx].
    + rewrite (IH x Hx). reflexivity.
    + rewrite (IHxs Hx). apply andb_false_r.
Qed.

Lemma value_of_json_plain {number} (j : JSONValue number) :
  plain_json (value_of_json j) = true.
Proof.
  revert j. fix IH 1. intros j. destruct j; cbn [value_of_json plain_json]; try reflexivity.
  - induction items as [|x xs IHxs]; cbn [map forallb]; [reflexivity|].
    rewrite (IH x), IHxs. reflexivity.
  - induction fields as [|[k x] xs IHxs]; cbn [map forallb fst snd]; [reflexivity|].
    rewrite (IH x), IHxs. reflexivity.
Qed.

(** ** The converter *)

Section ConverterFacts.
Context {number : Type} `{Host number}.

Lemma body_parses_back (j : JSONValue number) :
  json_text_faithful j -> JSON_parse (decode (encode (JSON_stringify j))) = Some j.
Proof. intros (Hwf & Hb & Hp). rewrite decode_encode_plain by assumption. exact Hp. Qed.

Lemma toPayload_defined (v : value number) r :
  v ≠ VUndefined -> superjson_serialize v = Some r ->
  toPayload v =
    Return (Some {| metadata := Some (metadata_of r);
                    data := Some (encode (JSON_stringify (json r))) |}).
Proof.
  intros Hv Hs. unfold toPayload, metadata_of. rewrite Hs.
  destruct v; try reflexivity. contradiction.
Qed.

(** A failure of the dependency on encode comes out as it is. *)
Lemma toPayload_failed (v : value number) :
  v ≠ VUndefined -> superjson_serialize v = None -> toPayload v = Throw SuperJSONError.
Proof.
  intros Hv Hs. unfold toPayload. rewrite Hs.
  destruct v; try reflexivity. contradiction.
Qed.

Lemma toPayload_None_iff (v : value number) :
  toPayload v = Return None ↔ v = VUndefined.
Proof.
  split.
  - intros Ht. destruct v; try reflexivity;
      unfold toPayload in Ht; destruct (superjson_serialize _); discriminate.
  - intros ->. reflexivity.
Qed.

Lemma metadata_of_encoding r :
  METADATA_ENCODING_KEY ≠ SUPERJSON_META_KEY ->
  metadata_of r !! METADATA_ENCODING_KEY = Some (encode ENCODING).
Proof.
  intros Hk. unfold metadata_of. destruct (meta r).
  - rewrite lookup_insert_ne by (intros E; apply Hk; symmetry; exact E).
    apply lookup_singleton_eq.
  - apply lookup_singleton_eq.
Qed.

Lemma metadata_of_manifest r :
  METADATA_ENCODING_KEY ≠ SUPERJSON_META_KEY ->
  metadata_of r !! SUPERJSON_META_KEY = (λ m, encode (JSON_stringify m)) <$> meta r.
Proof.
  intros Hk. unfold metadata_of. destruct (meta r); cbn [fmap option_fmap option_map].
  - apply lookup_insert_eq.
  - apply lookup_singleton_ne, Hk.
Qed.

Lemma fromPayload_missing (p : Payload) :
  data p = None -> fromPayload p = Throw (ValueError "Payload data is missing").
Proof. intros Hd. unfold fromPayload. rewrite Hd. reflexivity. Qed.

Lemma fromPayload_present_not_ValueError (p : Payload) d message :
  data p = Some d -> fromPayload p ≠ Throw (ValueError message).
Proof.
  intros Hd. unfold fromPayload. rewrite Hd.
  destruct (JSON_parse (decode d)); [|discriminate].
  destruct (metadata p ≫= _); [|discriminate].
  destruct (JSON_parse _); [|discriminate].
  destruct (superjson_deserialize _); discriminate.
Qed.

Lemma fromPayload_plain meta_map d :
  meta_map ≫= (λ m : gmap (list Z) (list Z), m !! SUPERJSON_META_KEY) = None ->
  fromPayload {| metadata := meta_map; data := Some d |} =
    match JSON_parse (decode d) with
    | Some j => Return (value_of_json j)
    | None => Throw SyntaxError
    end.
Proof.
  intros Hm. unfold fromPayload. cbn [data metadata]. rewrite Hm. reflexivity.
Qed.

Lemma fromPayload_manifest meta_map d raw :
  meta_map ≫= (λ m : gmap (list Z) (list Z), m !! SUPERJSON_META_KEY) = Some raw ->
  fromPayload {| metadata := meta_map; data := Some d |} =
    match JSON_parse (decode d) with
    | None => Throw SyntaxError
    | Some j =>
        match JSON_parse (decode raw) with
        | None => Throw SyntaxError
        | Some m =>
            match superjson_deserialize {| json := j; meta := Some m |} with
            | Some v => Return v
            | None => Throw SuperJSONError
            end
        end
    end.
Proof.
  intros Hm. unfold fromPayload. cbn [data metadata]. rewrite Hm. reflexivity.
Qed.

(** The round trip at one value, from what the host does at that value. *)
Lemma round_trip_at (v : value number) (r : SuperJSONResult number) :
  v ≠ VUndefined ->
  METADATA_ENCODING_KEY ≠ SUPERJSON_META_KEY ->
  superjson_serialize v = Some r ->
  superjson_deserialize r = Some v ->
  manifest_free_is_plain v r ->
  json_text_faithful (json r) ->
  (∀ m, meta r = Some m -> json_text_faithful m) ->
  round_trip v.
Proof.
  intros Hv Hk Hs Hd Hplain Hj Hm. unfold round_trip.
  eexists. split; [apply toPayload_defined; eassumption|].
  destruct (meta r) as [m|] eqn:Hmeta.
  - rewrite (fromPayload_manifest _ _ (encode (JSON_stringify m))).
    + rewrite body_parses_back by exact Hj.
      rewrite body_parses_back by (apply Hm; reflexivity).
      destruct r as [j mm]. cbn [meta json] in *. subst mm. rewrite Hd. reflexivity.
    + cbn [mbind option_bind]. rewrite metadata_of_manifest by exact Hk.
      rewrite Hmeta. reflexivity.
  - rewrite fromPayload_plain.
    + rewrite body_parses_back by exact Hj. rewrite (Hplain Hmeta). reflexivity.
    + cbn [mbind option_bind]. rewrite metadata_of_manifest by exact Hk.
      rewrite Hmeta. reflexivity.
Qed.

(** C1: for every value [v] other than [undefined] that the dependency
    serializes to [r], decoding the payload [toPayload v] gives back [v],
    under the contract of the dependency: [deserialize] inverts
    [serialize] at [v], and a result without manifest carries [v] itself
    as its tree (superjson's [deserialize] returns the tree as it is when
    [meta] is absent, which is what [fromPayload] does on that path).
    The platform facts used are that the metadata key of the SDK is not
    ['superjson-meta'] and that [JSON.parse] reads back the texts
    [JSON.stringify] wrote for the tree and for the manifest. *)
Theorem round_trip_law (v : value number) (r : SuperJSONResult number) :
  v ≠ VUndefined ->
  METADATA_ENCODING_KEY ≠ SUPERJSON_META_KEY ->
  superjson_serialize v = Some r ->
  superjson_deserialize r = Some v ->
  manifest_free_is_plain v r ->
  json_text_faithful (json r) ->
  (∀ m, meta r = Some m -> json_text_faithful m) ->
  round_trip v.
Proof.
  intros Hv Hk Hs Hd Hplain Hj Hm.
  destruct (round_trip_at v r Hv Hk Hs Hd Hplain Hj Hm) as [p [Ht Hf]].
  exists p. split; assumption.
Qed.

(** The same law for a host whose functions keep their contracts on every
    input: every value the dependency serializes, [undefined] apart,
    survives the round trip. *)
Corollary round_trip_on_faithful_host :
  METADATA_ENCODING_KEY ≠ SUPERJSON_META_KEY ->
  exact_inverse ->
  (∀ v r, superjson_serialize v = Some r -> manifest_free_is_plain v r) ->
  (∀ j, json_text_faithful j) ->
  ∀ v, v ≠ VUndefined -> is_Some (superjson_serialize v) -> round_trip v.
Proof.
  intros Hk Hinv Hplain Hjson v Hv [r Hs].
  apply (round_trip_at v r); auto.
Qed.

(** C2: for a defined value that the dependency serializes to [r],
    [toPayload] returns a payload whose [data] is present and is the UTF-8
    encoding of [JSON.stringify (json r)], and whose metadata maps the
    encoding key to the UTF-8 bytes of ["json/plain"]; the body alone
    parses back to the tree, manifest or not, as soon as [JSON.parse]
    reads back what [JSON.stringify] wrote. *)
Theorem toPayload_envelope (v : value number) (r : SuperJSONResult number) :
  v ≠ VUndefined ->
  METADATA_ENCODING_KEY ≠ SUPERJSON_META_KEY ->
  superjson_serialize v = Some r ->
  ∃ p m,
    toPayload v = Return (Some p) ∧
    data p = Some (encode (JSON_stringify (json r))) ∧
    metadata p = Some m ∧
    m !! METADATA_ENCODING_KEY = Some (encode (str "json/plain")) ∧
    (json_text_faithful (json r) ->
     ∀ d, data p = Some d -> JSON_parse (decode d) = Some (json r)).
Proof.
  intros Hv Hk Hs. eexists. eexists.
  split; [apply toPayload_defined; eassumption|].
  cbn [data metadata]. split; [reflexivity|]. split; [reflexivity|]. split.
  - apply metadata_of_encoding, Hk.
  - intros Hj d [= <-]. apply body_parses_back, Hj.
Qed.

(** C3: for a defined value that the dependency serializes to [r], the
    payload carries the entry ['superjson-meta'] exactly when [r] has a
    [meta] component.  When the dependency emits [meta] exactly for the
    values that are not plain JSON, the entry is absent for plain values
    and present for values that are not plain, among them every value
    with a date, a map, a set or a big integer inside. *)
Theorem manifest_entry_iff_meta (v : value number) (r : SuperJSONResult number) :
  v ≠ VUndefined ->
  METADATA_ENCODING_KEY ≠ SUPERJSON_META_KEY ->
  superjson_serialize v = Some r ->
  ∃ p m,
    toPayload v = Return (Some p) ∧ metadata p = Some m ∧
    (is_Some (m !! SUPERJSON_META_KEY) ↔ is_Some (meta r)) ∧
    ((is_Some (meta r) ↔ plain_json v = false) ->
       (is_Some (m !! SUPERJSON_META_KEY) ↔ plain_json v = false) ∧
       (plain_json v = true -> m !! SUPERJSON_META_KEY = None) ∧
       (contains_rich v = true -> is_Some (m !! SUPERJSON_META_KEY))).
Proof.
  intros Hv Hk Hs. eexists. eexists.
  split; [apply toPayload_defined; eassumption|].
  cbn [metadata]. split; [reflexivity|].
  assert (Hiff : is_Some (metadata_of r !! SUPERJSON_META_KEY) ↔ is_Some (meta r)).
  { rewrite metadata_of_manifest by exact Hk. apply fmap_is_Some. }
  split; [exact Hiff|].
  intros Hdep. split; [|split].
  - rewrite Hiff. exact Hdep.
  - intros Hp. apply eq_None_not_Some. rewrite Hiff, Hdep. congruence.
  - intros Hr. apply Hiff, Hdep, contains_rich_not_plain, Hr.
Qed.

(** C5: [toPayload] declines (returns no payload) exactly on [undefined];
    in particular it does not decline [null]. *)
Theorem toPayload_declines_iff_undefined (v : value number) :
  toPayload (VUndefined : value number) = Return None ∧
  (toPayload v = Return None ↔ v = VUndefined) ∧
  toPayload (VNull : value number) ≠ Return None.
Proof.
  split; [reflexivity|]. split; [apply toPayload_None_iff|].
  intros Ht. apply toPayload_None_iff in Ht. discriminate.
Qed.

(** C6: when [data] is present and the metadata has no ['superjson-meta']
    entry (or there is no metadata at all), [fromPayload] returns the
    result of [JSON.parse] on the decoded body as it is, whatever the
    shape of the body: [deserialize] is not called and no type is
    restored, the value returned is plain JSON. *)
Theorem fromPayload_without_manifest (p : Payload) (d : bytes) :
  data p = Some d ->
  (∀ m, metadata p = Some m -> m !! SUPERJSON_META_KEY = None) ->
  fromPayload p =
    match JSON_parse (decode d) with
    | Some j => Return (value_of_json j)
    | None => Throw SyntaxError
    end ∧
  (∀ v, fromPayload p = Return v -> plain_json v = true).
Proof.
  intros Hd Hm. destruct p as [mm dd]. cbn [data metadata] in *. subst dd.
  assert (Hf : fromPayload {| metadata := mm; data := Some d |} =
               match JSON_parse (decode d) with
               | Some j => Return (value_of_json j)
               | None => Throw SyntaxError
               end).
  { apply fromPayload_plain. destruct mm as [m|]; [|reflexivity].
    cbn [mbind option_bind]. apply Hm. reflexivity. }
  split; [exact Hf|]. intros v. rewrite Hf.
  destruct (JSON_parse (decode d)) as [j|]; [|discriminate].
  intros [= <-]. apply value_of_json_plain.
Qed.

(** C9: [fromPayload] does not read the encoding entry: overwriting it or
    deleting it leaves the result unchanged, and a payload without any
    metadata is decoded on the plain-JSON path. *)
Theorem fromPayload_ignores_encoding_entry (p : Payload) :
  METADATA_ENCODING_KEY ≠ SUPERJSON_META_KEY ->
  (∀ m x, metadata p = Some m ->
     fromPayload {| metadata := Some (<[ METADATA_ENCODING_KEY := x ]> m); data := data p |}
       = fromPayload p) ∧
  (∀ m, metadata p = Some m ->
     fromPayload {| metadata := Some (delete METADATA_ENCODING_KEY m); data := data p |}
       = fromPayload p) ∧
  (∀ d, metadata p = None -> data p = Some d ->
     fromPayload p =
       match JSON_parse (decode d) with
       | Some j => Return (value_of_json j)
       | None => Throw SyntaxError
       end).
Proof.
  intros Hk. destruct p as [mm dd]. cbn [data metadata]. split; [|split].
  - intros m x ->. unfold fromPayload. cbn [data metadata mbind option_bind].
    rewrite lookup_insert_ne by exact Hk. reflexivity.
  - intros m ->. unfold fromPayload. cbn [data metadata mbind option_bind].
    rewrite lookup_delete_ne by exact Hk. reflexivity.
  - intros d -> ->. apply fromPayload_plain. reflexivity.
Qed.

(** C10: a payload whose [data] is present but empty is not reported as
    missing data: the empty text goes to [JSON.parse], whose failure is
    what [fromPayload] throws. *)
Theorem empty_data_is_not_missing (p : Payload) :
  data p = Some [] ->
  JSON_parse [] = None ->
  fromPayload p = Throw SyntaxError ∧
  (∀ message, fromPayload p ≠ Throw (ValueError message)).
Proof.
  intros Hd Hp.
  assert (Hf : fromPayload p = Throw SyntaxError).
  { unfold fromPayload. rewrite Hd. change (decode []) with (@nil Z). rewrite Hp. reflexivity. }
  split; [exact Hf|]. intros message. rewrite Hf. discriminate.
Qed.

End ConverterFacts.

(** C4: [fromPayload] throws the missing-data [ValueError] exactly when
    [data] is absent, and throws no other [ValueError]; a failure of
    [JSON.parse] (on the body or on the manifest) or of [deserialize]
    comes out as that failure; when [data] is absent nothing is returned
    and the outcome does not depend on the host functions, which are not
    consulted. *)
Theorem missing_data_iff {number : Type} (H : Host number) (p : Payload) :
  (fromPayload p = Throw (ValueError "Payload data is missing") ↔ data p = None) ∧
  (∀ message, fromPayload p = Throw (ValueError message) →
     data p = None ∧ message = "Payload data is missing"%string) ∧
  (data p = None → (∀ v, fromPayload p ≠ Return v) ∧
     ∀ H' : Host number, @fromPayload number H' p = fromPayload p) ∧
  (∀ d, data p = Some d → JSON_parse (decode d) = None → fromPayload p = Throw SyntaxError) ∧
  (∀ d j m raw, data p = Some d → JSON_parse (decode d) = Some j →
     metadata p = Some m → m !! SUPERJSON_META_KEY = Some raw →
     (JSON_parse (decode raw) = None → fromPayload p = Throw SyntaxError) ∧
     (∀ t, JSON_parse (decode raw) = Some t →
        superjson_deserialize {| json := j; meta := Some t |} = None →
        fromPayload p = Throw SuperJSONError)).
Proof.
  split; [split|split; [|split; [|split]]].
  - intros Hf. destruct (data p) as [d|] eqn:Hd; [|reflexivity].
    exfalso. exact (fromPayload_present_not_ValueError p d _ Hd Hf).
  - apply fromPayload_missing.
  - intros message Hf. destruct (data p) as [d|] eqn:Hd.
    + exfalso. exact (fromPayload_present_not_ValueError p d _ Hd Hf).
    + rewrite fromPayload_missing in Hf by exact Hd. injection Hf as <-. split; reflexivity.
  - intros Hd. split.
    + intros v. rewrite fromPayload_missing by exact Hd. discriminate.
    + intros H'. rewrite !fromPayload_missing by exact Hd. reflexivity.
  - intros d Hd Hp. unfold fromPayload. rewrite Hd, Hp. reflexivity.
  - intros d j m raw Hd Hj Hm Hraw. destruct p as [mm dd]. cbn [data metadata] in *. subst.
    rewrite (fromPayload_manifest _ _ raw) by exact Hraw. rewrite Hj. split.
    + intros ->. reflexivity.
    + intros t -> ->. reflexivity.
Qed.

(** ** The composite converter *)

Section CompositeFacts.
Context {number : Type} `{Host number} `{Peers}.

Lemma dispatch_first_wins (cs : list converter) (v : value number) tried p :
  dispatch cs v = (tried, Return (Some p)) ->
  ∃ declined c rest,
    cs = declined ++ c :: rest ∧ tried = declined ++ [c] ∧
    converter_toPayload c v = Return (Some p) ∧
    Forall (fun c' => converter_toPayload c' v = Return None) declined.
Proof.
  revert tried. induction cs as [|c cs IH]; intros tried; cbn [dispatch]; [discriminate|].
  destruct (converter_toPayload c v) as [[q|]|e] eqn:Hc.
  - intros [= <- <-]. exists [], c, cs. repeat split; [exact Hc | constructor].
  - destruct (dispatch cs v) as [tr res] eqn:Hd. intros [= <- ->].
    destruct (IH tr eq_refl) as (declined & c' & rest & -> & -> & Hw & Hall).
    exists (c :: declined), c', rest. repeat split; [exact Hw | constructor; assumption].
  - discriminate.
Qed.

Lemma dispatch_reaches_superjson (v : value number) :
  v ≠ VUndefined -> (∀ b, v ≠ VUint8Array b) ->
  dispatch payloadConverter v = (payloadConverter, toPayload v).
Proof.
  intros Hu Hb. unfold payloadConverter.
  destruct v; try (exfalso; apply Hu; reflexivity); try (exfalso; eapply Hb; reflexivity);
    cbn [dispatch converter_toPayload];
    match goal with |- context [toPayload ?w] => destruct (toPayload w) as [[q|]|e] end;
    reflexivity.
Qed.

(** C8: the exported composite holds exactly three converters, in the
    order undefined handler, binary handler, SuperJSON converter.  On
    encode the payload comes from the first converter of the list that
    returns one, every converter before it having declined; for
    [undefined] the first converter answers and for a byte buffer the
    second, so the encode step of the SuperJSON converter does not run on
    them; on every other value it runs. *)
Theorem payloadConverter_dispatch_order :
  payloadConverter =
    [UndefinedPayloadConverter; BinaryPayloadConverter; SuperJsonPayloadConverter] ∧
  length payloadConverter = 3%nat ∧
  (∀ (v : value number) tried p,
     dispatch payloadConverter v = (tried, Return (Some p)) →
     ∃ declined c rest,
       payloadConverter = declined ++ c :: rest ∧ tried = declined ++ [c] ∧
       converter_toPayload c v = Return (Some p) ∧
       Forall (fun c' => converter_toPayload c' v = Return None) declined) ∧
  dispatch payloadConverter (VUndefined : value number) =
    ([UndefinedPayloadConverter], Return (Some undefined_payload)) ∧
  (∀ b, dispatch payloadConverter (VUint8Array b : value number) =
    ([UndefinedPayloadConverter; BinaryPayloadConverter], Return (Some (binary_payload b)))) ∧
  (∀ v : value number, v = VUndefined ∨ (∃ b, v = VUint8Array b) →
     SuperJsonPayloadConverter ∉ fst (dispatch payloadConverter v)) ∧
  (∀ v : value number, v ≠ VUndefined → (∀ b, v ≠ VUint8Array b) →
     dispatch payloadConverter v = (payloadConverter, toPayload v)).
Proof.
  split; [reflexivity|]. split; [reflexivity|].
  split; [intros v tried p; apply dispatch_first_wins|].
  split; [reflexivity|]. split; [reflexivity|]. split.
  - intros v [->|[b ->]]; cbn [dispatch payloadConverter converter_toPayload fst];
      intros Hin; repeat (apply elem_of_cons in Hin as [Hin|Hin]; [discriminate|]);
      apply elem_of_nil in Hin; exact Hin.
  - apply dispatch_reaches_superjson.
Qed.

End CompositeFacts.

(** ** The laws on the reference host *)

Example scenario_serialized : Reference.serialize scenario = Some scenario_result.
Proof. vm_compute. reflexivity. Qed.

Example scenario_body :
  Reference.stringify (json scenario_result) =
    json_text "{'id':'test-123','createdAt':'2024-01-01T00:00:00.000Z','tags':['important','urgent']}".
Proof. vm_compute. reflexivity. Qed.

Example scenario_manifest :
  Reference.stringify <$> meta scenario_result =
    Some (json_text "{'values':{'createdAt':['Date'],'tags':['set']}}").
Proof. vm_compute. reflexivity. Qed.

Example nested_restored :
  Reference.serialize nested ≫= Reference.deserialize = Some nested.
Proof. vm_compute. reflexivity. Qed.

Lemma reference_keys_distinct : @METADATA_ENCODING_KEY Z reference_host ≠ SUPERJSON_META_KEY.
Proof. intros E. vm_compute in E. discriminate E. Defined.

Lemma reference_text_faithful (j : JSONValue Z) :
  well_formed (Reference.stringify j) = true ->
  starts_with_bom (Reference.stringify j) = false ->
  Reference.parse (Reference.stringify j) = Some j ->
  @json_text_faithful Z reference_host j.
Proof. intros H1 H2 H3. repeat split; assumption. Defined.

Lemma decode_encode_round_trip_witness :
  well_formed sample_string = true ∧
  decode (encode sample_string) = strip_bom sample_string ∧
  (starts_with_bom sample_string = false -> decode (encode sample_string) = sample_string).
Proof. split; [reflexivity|]. apply (decode_encode_round_trip sample_string). reflexivity. Defined.

Lemma round_trip_law_witness : @round_trip Z reference_host scenario.
Proof.
  apply (round_trip_law scenario scenario_result).
  - discriminate.
  - exact reference_keys_distinct.
  - vm_compute. reflexivity.
  - vm_compute. reflexivity.
  - intros E. vm_compute in E. discriminate E.
  - apply reference_text_faithful; vm_compute; reflexivity.
  - intros m E. injection E as <-. apply reference_text_faithful; vm_compute; reflexivity.
Defined.

(** The repository's test 'Date survives serialization'. *)
Example date_round_trip :
  ∃ p, @toPayload Z reference_host new_year = Return (Some p) ∧
       @fromPayload Z reference_host p = Return new_year.
Proof. eexists. split; [reflexivity|]. vm_compute. reflexivity. Qed.

Lemma toPayload_envelope_witness :
  ∃ p m,
    @toPayload Z reference_host scenario = Return (Some p) ∧
    data p = Some (encode (Reference.stringify (json scenario_result))) ∧
    metadata p = Some m ∧
    m !! str "encoding" = Some (encode (str "json/plain")) ∧
    (@json_text_faithful Z reference_host (json scenario_result) ->
     ∀ d, data p = Some d -> Reference.parse (decode d) = Some (json scenario_result)).
Proof.
  apply (toPayload_envelope (H := reference_host) scenario scenario_result).
  - discriminate.
  - exact reference_keys_distinct.
  - vm_compute. reflexivity.
Defined.

Lemma manifest_entry_iff_meta_witness :
  ∃ p m,
    @toPayload Z reference_host scenario = Return (Some p) ∧ metadata p = Some m ∧
    (is_Some (m !! SUPERJSON_META_KEY) ↔ is_Some (meta scenario_result)) ∧
    ((is_Some (meta scenario_result) ↔ plain_json scenario = false) ->
       (is_Some (m !! SUPERJSON_META_KEY) ↔ plain_json scenario = false) ∧
       (plain_json scenario = true -> m !! SUPERJSON_META_KEY = None) ∧
       (contains_rich scenario = true -> is_Some (m !! SUPERJSON_META_KEY))).
Proof.
  apply (manifest_entry_iff_meta (H := reference_host) scenario scenario_result).
  - discriminate.
  - exact reference_keys_distinct.
  - vm_compute. reflexivity.
Defined.

Lemma fromPayload_without_manifest_witness :
  @fromPayload Z reference_host (legacy legacy_body) =
    match Reference.parse (decode (encode legacy_body)) with
    | Some j => Return (value_of_json j)
    | None => Throw SyntaxError
    end ∧
  (∀ v, @fromPayload Z reference_host (legacy legacy_body) = Return v -> plain_json v = true).
Proof.
  apply (fromPayload_without_manifest (H := reference_host) (legacy legacy_body) (encode legacy_body)).
  - reflexivity.
  - intros m E. injection E as <-. vm_compute. reflexivity.
Defined.

Lemma fromPayload_ignores_encoding_entry_witness :
  (∀ m x, metadata (legacy legacy_body) = Some m ->
     @fromPayload Z reference_host
       {| metadata := Some (<[ str "encoding" := x ]> m); data := data (legacy legacy_body) |}
       = fromPayload (legacy legacy_body)) ∧
  (∀ m, metadata (legacy legacy_body) = Some m ->
     @fromPayload Z reference_host
       {| metadata := Some (delete (str "encoding") m); data := data (legacy legacy_body) |}
       = fromPayload (legacy legacy_body)) ∧
  (∀ d, metadata (legacy legacy_body) = None -> data (legacy legacy_body) = Some d ->
     @fromPayload Z reference_host (legacy legacy_body) =
       match Reference.parse (decode d) with
       | Some j => Return (value_of_json j)
       | None => Throw SyntaxError
       end).
Proof.
  apply (fromPayload_ignores_encoding_entry (H := reference_host) (legacy legacy_body)).
  exact reference_keys_distinct.
Defined.

Lemma empty_data_is_not_missing_witness :
  @fromPayload Z reference_host empty_data_payload = Throw SyntaxError ∧
  (∀ message, @fromPayload Z reference_host empty_data_payload ≠ Throw (ValueError message)).
Proof.
  apply (empty_data_is_not_missing (H := reference_host) empty_data_payload).
  - reflexivity.
  - vm_compute. reflexivity.
Defined.

(** *** The test vectors of the repository *)

Example legacy_object :
  @fromPayload Z reference_host (legacy legacy_body) =
    Return (VObject [(str "name", VString (str "legacy")); (str "value", VNumber 123);
                     (str "nested", VObject [(str "foo", VString (str "bar"))])]).
Proof. vm_compute. reflexivity. Qed.

Example legacy_array :
  @fromPayload Z reference_host (legacy (json_text "[1,2,3,'four','five']")) =
    Return (VArray [VNumber 1; VNumber 2; VNumber 3; VString (str "four"); VString (str "five")]).
Proof. vm_compute. reflexivity. Qed.

Example legacy_primitives :
  @fromPayload Z reference_host (legacy (json_text "'hello'")) = Return (VString (str "hello")) ∧
  @fromPayload Z reference_host (legacy (json_text "42")) = Return (VNumber 42) ∧
  @fromPayload Z reference_host (legacy (json_text "true")) = Return (VBoolean true) ∧
  @fromPayload Z reference_host (legacy (json_text "null")) = Return VNull.
Proof. repeat split; vm_compute; reflexivity. Qed.

Example missing_data :
  @fromPayload Z reference_host no_data_payload = Throw (ValueError "Payload data is missing").
Proof. reflexivity. Qed.

Example nested_round_trip :
  ∃ p, @toPayload Z reference_host nested = Return (Some p) ∧
       @fromPayload Z reference_host p = Return nested.
Proof. eexists. split; [reflexivity|]. vm_compute. reflexivity. Qed.

Example scenario_round_trip :
  ∃ p, @toPayload Z reference_host scenario = Return (Some p) ∧
       @fromPayload Z reference_host p = Return scenario.
Proof. eexists. split; [reflexivity|]. vm_compute. reflexivity. Qed.

(** A reader that ignores the manifest recovers the date as a string. *)
Example scenario_degraded :
  ∃ p, @toPayload Z reference_host scenario = Return (Some p) ∧
       Reference.parse ∘ decode <$> data p =
         Some (Some (JObject [(str "id", JString (str "test-123"));
                              (str "createdAt", JString (str "2024-01-01T00:00:00.000Z"));
                              (str "tags", JArray [JString (str "important"); JString (str "urgent")])])).
Proof. eexists. split; [reflexivity|]. vm_compute. reflexivity. Qed.

Example composite_on_scenario :
  fst (dispatch payloadConverter scenario) = payloadConverter ∧
  fst (dispatch payloadConverter (VUint8Array [1; 2; 3; 4; 5] : value Z)) =
    [UndefinedPayloadConverter; BinaryPayloadConverter].
Proof. split; reflexivity. Qed.

(** * Further properties *)

(** ** The decoder emits scalar values only *)

Lemma decoder_init_ok : decoder_ok decoder_init.
Proof. left. reflexivity. Qed.

Lemma scalar_FFFD : is_scalar 0xFFFD = true.
Proof. reflexivity. Qed.

Lemma handle_lead_ok b d out :
  handle_lead b = (d, out) ->
  decoder_ok d ∧ Forall (fun c => is_scalar c = true) out.
Proof.
  unfold handle_lead, in_range.
  destruct (Z.leb_spec 0x00 b), (Z.leb_spec b 0x7F); cbn [andb].
  1: { intros [= <- <-]. split; [apply decoder_init_ok|]. repeat constructor. apply is_scalar_spec. lia. }
  all: destruct (Z.leb_spec 0xC2 b), (Z.leb_spec b 0xDF); cbn [andb].
  all: try (intros [= <- <-]; split; [|constructor]; right;
            cbn [bytes_needed bytes_seen code_point lower_boundary upper_boundary];
            unfold pending_least, pending_greatest;
            cbn [bytes_needed bytes_seen code_point lower_boundary upper_boundary];
            rewrite land_0x1F;
            pose proof (Z.div_mod b 32 ltac:(lia));
            pose proof (Z.mod_pos_bound b 32 ltac:(lia));
            change (64 ^ (1 - 0)) with 64; change (64 ^ (1 - 0 - 1)) with 1; lia).
  all: destruct (Z.leb_spec 0xE0 b), (Z.leb_spec b 0xEF); cbn [andb].
  all: try (intros [= <- <-]; split; [|constructor]; right;
            cbn [bytes_needed bytes_seen code_point lower_boundary upper_boundary];
            unfold pending_least, pending_greatest;
            cbn [bytes_needed bytes_seen code_point lower_boundary upper_boundary];
            rewrite land_0xF;
            pose proof (Z.div_mod b 16 ltac:(lia));
            pose proof (Z.mod_pos_bound b 16 ltac:(lia));
            change (64 ^ (2 - 0)) with 4096; change (64 ^ (2 - 0 - 1)) with 64;
            destruct (Z.eqb_spec b 0xE0), (Z.eqb_spec b 0xED); lia).
  all: destruct (Z.leb_spec 0xF0 b), (Z.leb_spec b 0xF4); cbn [andb].
  all: try (intros [= <- <-]; split; [|constructor]; right;
            cbn [bytes_needed bytes_seen code_point lower_boundary upper_boundary];
            unfold pending_least, pending_greatest;
            cbn [bytes_needed bytes_seen code_point lower_boundary upper_boundary];
            rewrite land_0x7;
            pose proof (Z.div_mod b 8 ltac:(lia));
            pose proof (Z.mod_pos_bound b 8 ltac:(lia));
            change (64 ^ (3 - 0)) with 262144; change (64 ^ (3 - 0 - 1)) with 4096;
            destruct (Z.eqb_spec b 0xF0), (Z.eqb_spec b 0xF4); lia).
  all: intros [= <- <-]; split; [apply decoder_init_ok|]; repeat constructor.
Qed.

Lemma pending_cases d :
  1 <= bytes_needed d <= 3 -> 0 <= bytes_seen d < bytes_needed d ->
  bytes_needed d - bytes_seen d = 1 ∨ bytes_needed d - bytes_seen d = 2 ∨
  bytes_needed d - bytes_seen d = 3.
Proof. lia. Qed.

Lemma handle_byte_ok d b d' out :
  decoder_ok d -> handle_byte d b = (d', out) ->
  decoder_ok d' ∧ Forall (fun c => is_scalar c = true) out.
Proof.
  intros Hd. unfold handle_byte.
  destruct (Z.eqb_spec (bytes_needed d) 0) as [E|E]; [apply handle_lead_ok|].
  destruct Hd as [Hd|(Hn & Hs & Hc & Hlo & Hhi & Hr)]; [contradiction|].
  unfold in_range.
  destruct (Z.leb_spec (lower_boundary d) b), (Z.leb_spec b (upper_boundary d)); cbn [andb negb].
  2-4: destruct (handle_lead b) as [d0 out0] eqn:Hl; intros [= <- <-];
       destruct (handle_lead_ok _ _ _ Hl) as [Hok Hout]; split; [exact Hok|];
       constructor; [reflexivity | exact Hout].
  rewrite land_0x3F.
  pose proof (Z.div_mod b 64 ltac:(lia)) as Eb.
  pose proof (Z.mod_pos_bound b 64 ltac:(lia)) as Bb.
  assert (Ey : b mod 64 = b - 0x80) by lia.
  rewrite lor_shiftl_low by lia. change (2 ^ 6) with 64.
  unfold pending_least, pending_greatest in Hr.
  destruct (Z.eqb_spec (bytes_seen d + 1) (bytes_needed d)) as [Ec|Ec].
  - intros [= <- <-]. split; [apply decoder_init_ok|].
    constructor; [|constructor]. apply is_scalar_spec.
    replace (bytes_needed d - bytes_seen d) with 1 in Hr by lia.
    change (64 ^ 1) with 64 in Hr. change (64 ^ (1 - 1)) with 1 in Hr. lia.
  - intros [= <- <-]. split; [|constructor]. right.
    cbn [bytes_needed bytes_seen code_point lower_boundary upper_boundary].
    unfold pending_least, pending_greatest.
    cbn [bytes_needed bytes_seen code_point lower_boundary upper_boundary].
    destruct (pending_cases d Hn Hs) as [E1|[E2|E3]]; [lia| |].
    + replace (bytes_needed d - (bytes_seen d + 1)) with 1 by lia.
      rewrite E2 in Hr.
      change (64 ^ 2) with 4096 in Hr. change (64 ^ (2 - 1)) with 64 in Hr.
      change (64 ^ 1) with 64. change (64 ^ (1 - 1)) with 1. lia.
    + replace (bytes_needed d - (bytes_seen d + 1)) with 2 by lia.
      rewrite E3 in Hr.
      change (64 ^ 3) with 262144 in Hr. change (64 ^ (3 - 1)) with 4096 in Hr.
      change (64 ^ 2) with 4096. change (64 ^ (2 - 1)) with 64. lia.
Qed.






(** ** The codec on arbitrary strings *)

Lemma units_view_of s : Forall (fun u => is_code_unit u = true) s -> units_view s.
Proof.
  remember (length s) as n eqn:Hn.
  revert s Hn. induction n as [n IH] using lt_wf_ind. intros s Hn Hs.
  destruct Hs as [|u rest Hu Hrest]; [constructor|].
  apply code_unit_spec in Hu. cbn [length] in Hn.
  destruct (Z.lt_ge_cases u 0xD800) as [H1|H1].
  { apply uv_plain; [lia | lia |]. apply (IH (length rest)); [lia | reflexivity | exact Hrest]. }
  destruct (Z.lt_ge_cases 0xDFFF u) as [H2|H2].
  { apply uv_plain; [lia | lia |]. apply (IH (length rest)); [lia | reflexivity | exact Hrest]. }
  destruct (Z.lt_ge_cases 0xDBFF u) as [H3|H3].
  { apply uv_lone; [lia | lia |]. apply (IH (length rest)); [lia | reflexivity | exact Hrest]. }
  destruct Hrest as [|l rest' Hl Hrest'].
  { apply uv_lone; [lia | intros _ l rest' [=] | constructor]. }
  apply code_unit_spec in Hl.
  destruct (Z.lt_ge_cases l 0xDC00) as [H4|H4];
    [|destruct (Z.lt_ge_cases 0xDFFF l) as [H5|H5]].
  - apply uv_lone; [lia | intros _ l0 r0 [= <- <-]; lia |].
    apply (IH (length (l :: rest'))); [cbn [length] in *; lia | reflexivity |].
    constructor; [apply code_unit_spec; lia | exact Hrest'].
  - apply uv_lone; [lia | intros _ l0 r0 [= <- <-]; lia |].
    apply (IH (length (l :: rest'))); [cbn [length] in *; lia | reflexivity |].
    constructor; [apply code_unit_spec; lia | exact Hrest'].
  - apply uv_pair; [lia | lia |].
    apply (IH (length rest')); [cbn [length] in *; lia | reflexivity | exact Hrest'].
Qed.

Lemma wf_units_view s : wf_view s -> units_view s.
Proof. induction 1; [apply uv_nil | apply uv_plain | apply uv_pair]; assumption. Qed.

Lemma lead_false u : ~ (0xD800 <= u <= 0xDBFF) -> is_lead_surrogate u = false.
Proof. intros H. destruct (is_lead_surrogate u) eqn:E; [apply lead_spec in E; lia | reflexivity]. Qed.

Lemma trail_false u : ~ (0xDC00 <= u <= 0xDFFF) -> is_trail_surrogate u = false.
Proof. intros H. destruct (is_trail_surrogate u) eqn:E; [apply trail_spec in E; lia | reflexivity]. Qed.

Lemma to_scalars_lone u rest :
  0xD800 <= u <= 0xDFFF ->
  (0xD800 <= u <= 0xDBFF -> ∀ l rest', rest = l :: rest' -> ~ (0xDC00 <= l <= 0xDFFF)) ->
  to_scalars (u :: rest) = 0xFFFD :: to_scalars rest.
Proof.
  intros Hu Hl. cbn [to_scalars].
  destruct (is_lead_surrogate u) eqn:E.
  - apply lead_spec in E. destruct rest as [|l rest']; [reflexivity|].
    rewrite (trail_false l) by (apply (Hl E l rest'); reflexivity). reflexivity.
  - assert (~ (0xD800 <= u <= 0xDBFF)) by (intros H; apply lead_spec in H; congruence).
    rewrite (proj2 (trail_spec u)) by lia. reflexivity.
Qed.

Lemma toWellFormed_lone u rest :
  0xD800 <= u <= 0xDFFF ->
  (0xD800 <= u <= 0xDBFF -> ∀ l rest', rest = l :: rest' -> ~ (0xDC00 <= l <= 0xDFFF)) ->
  toWellFormed (u :: rest) = 0xFFFD :: toWellFormed rest.
Proof.
  intros Hu Hl. cbn [toWellFormed].
  destruct (is_lead_surrogate u) eqn:E.
  - apply lead_spec in E. destruct rest as [|l rest']; [reflexivity|].
    rewrite (trail_false l) by (apply (Hl E l rest'); reflexivity). reflexivity.
  - assert (~ (0xD800 <= u <= 0xDBFF)) by (intros H; apply lead_spec in H; congruence).
    rewrite (proj2 (trail_spec u)) by lia. reflexivity.
Qed.

Lemma toWellFormed_bmp u rest :
  ~ (0xD800 <= u <= 0xDFFF) -> toWellFormed (u :: rest) = u :: toWellFormed rest.
Proof.
  intros Hu. cbn [toWellFormed].
  rewrite lead_false, trail_false by lia. reflexivity.
Qed.

Lemma toWellFormed_pair u l rest :
  0xD800 <= u <= 0xDBFF -> 0xDC00 <= l <= 0xDFFF ->
  toWellFormed (u :: l :: rest) = u :: l :: toWellFormed rest.
Proof.
  intros Hu Hl. cbn [toWellFormed].
  rewrite (proj2 (lead_spec u) Hu), (proj2 (trail_spec l) Hl). reflexivity.
Qed.

Lemma to_scalars_scalar_any s :
  units_view s -> Forall (fun c => is_scalar c = true) (to_scalars s).
Proof.
  induction 1 as [|u rest Hu Hns _ IH|u l rest Hu Hl _ IH|u rest Hu Hl _ IH]; [constructor| | |].
  - rewrite to_scalars_bmp by assumption. constructor; [apply is_scalar_spec; lia | exact IH].
  - rewrite to_scalars_pair by assumption. constructor; [apply is_scalar_spec; lia | exact IH].
  - rewrite to_scalars_lone by assumption. constructor; [reflexivity | exact IH].
Qed.

Lemma from_to_scalars_any s :
  units_view s -> from_scalars (to_scalars s) = toWellFormed s.
Proof.
  unfold from_scalars.
  induction 1 as [|u rest Hu Hns _ IH|u l rest Hu Hl _ IH|u rest Hu Hl _ IH]; [reflexivity| | |].
  - rewrite to_scalars_bmp, toWellFormed_bmp by assumption. cbn [flat_map]. rewrite IH.
    unfold units_of_scalar. destruct (Z.leb_spec u 0xFFFF); [reflexivity | lia].
  - rewrite to_scalars_pair, toWellFormed_pair by assumption. cbn [flat_map].
    rewrite IH, units_of_pair by assumption. reflexivity.
  - rewrite to_scalars_lone, toWellFormed_lone by assumption. cbn [flat_map]. rewrite IH. reflexivity.
Qed.

Lemma toWellFormed_id s : well_formed s = true -> toWellFormed s = s.
Proof.
  intros Hwf. apply well_formed_view in Hwf.
  induction Hwf as [|u rest Hu Hns _ IH|u l rest Hu Hl _ IH]; [reflexivity| |].
  - rewrite toWellFormed_bmp by assumption. rewrite IH. reflexivity.
  - rewrite toWellFormed_pair by assumption. rewrite IH. reflexivity.
Qed.

Lemma to_scalars_from_scalars l :
  Forall (fun c => is_scalar c = true) l -> to_scalars (from_scalars l) = l.
Proof.
  unfold from_scalars. induction 1 as [|c l Hc _ IH]; [reflexivity|].
  cbn [flat_map]. apply is_scalar_spec in Hc. unfold units_of_scalar.
  destruct (Z.leb_spec c 0xFFFF).
  - cbn [app]. rewrite to_scalars_bmp by lia. f_equal. exact IH.
  - rewrite land_0x3FF, Z.shiftr_div_pow2 by lia. change (2 ^ 10) with 1024.
    pose proof (Z.div_mod (c - 0x10000) 1024 ltac:(lia)).
    pose proof (Z.mod_pos_bound (c - 0x10000) 1024 ltac:(lia)).
    cbn [app]. rewrite to_scalars_pair by lia. f_equal; [lia | exact IH].
Qed.

Lemma from_scalars_strip l :
  Forall (fun c => is_scalar c = true) l ->
  from_scalars (strip_bom l) = strip_bom (from_scalars l).
Proof.
  intros H. destruct H as [|c l Hc Hl]; [reflexivity|].
  apply is_scalar_spec in Hc. cbn [strip_bom]. unfold from_scalars. cbn [flat_map].
  unfold units_of_scalar at 2.
  destruct (Z.eqb_spec c 0xFEFF) as [->|Hne].
  - reflexivity.
  - destruct (Z.leb_spec c 0xFFFF).
    + cbn [app strip_bom]. destruct (Z.eqb_spec c 0xFEFF); [contradiction|].
      cbn [flat_map]. unfold units_of_scalar at 1.
      destruct (Z.leb_spec c 0xFFFF); [reflexivity | lia].
    + rewrite Z.shiftr_div_pow2 by lia. change (2 ^ 10) with 1024.
      pose proof (Z.div_mod (c - 0x10000) 1024 ltac:(lia)).
      pose proof (Z.mod_pos_bound (c - 0x10000) 1024 ltac:(lia)).
      cbn [app strip_bom].
      destruct (Z.eqb_spec (0xD800 + (c - 0x10000) / 1024) 0xFEFF); [lia|].
      cbn [flat_map]. unfold units_of_scalar at 1.
      destruct (Z.leb_spec c 0xFFFF); [lia|].
      rewrite Z.shiftr_div_pow2 by lia. reflexivity.
Qed.

(** X2: on any string, ill-formed ones included, [decode (encode s)] is
    [s] with every lone surrogate replaced by U+FFFD, without a leading
    U+FEFF; a well-formed string has nothing to replace. *)
Theorem decode_encode_any (s : jsstring) :
  Forall (fun u => is_code_unit u = true) s ->
  decode (encode s) = strip_bom (toWellFormed s) ∧
  (well_formed s = true -> toWellFormed s = s).
Proof.
  intros Hs. apply units_view_of in Hs. split; [|apply toWellFormed_id].
  unfold decode, encode.
  rewrite utf8_decode_encode by (apply to_scalars_scalar_any; exact Hs).
  rewrite from_scalars_strip by (apply to_scalars_scalar_any; exact Hs).
  rewrite from_to_scalars_any by exact Hs. reflexivity.
Qed.

Lemma to_scalars_strip s :
  units_view s -> strip_bom (to_scalars s) = to_scalars (strip_bom s).
Proof.
  intros H. destruct H as [|u rest Hu Hns Hr|u l rest Hu Hl Hr|u rest Hu Hl Hr]; [reflexivity| | |].
  - rewrite to_scalars_bmp by assumption. cbn [strip_bom].
    destruct (u =? 0xFEFF); [reflexivity|]. rewrite to_scalars_bmp by assumption. reflexivity.
  - rewrite to_scalars_pair by assumption. cbn [strip_bom].
    destruct (Z.eqb_spec (0x10000 + (u - 0xD800) * 1024 + (l - 0xDC00)) 0xFEFF); [lia|].
    destruct (Z.eqb_spec u 0xFEFF); [lia|]. rewrite to_scalars_pair by assumption. reflexivity.
  - rewrite to_scalars_lone by assumption. cbn [strip_bom].
    destruct (Z.eqb_spec u 0xFEFF); [lia|]. cbn [Z.eqb Pos.eqb].
    rewrite to_scalars_lone by assumption. reflexivity.
Qed.

Lemma strip_bom_view s : units_view s -> units_view (strip_bom s).
Proof.
  intros H. pose proof H as H'.
  destruct H as [|u rest Hu Hns Hr|u l rest Hu Hl Hr|u rest Hu Hl Hr]; cbn [strip_bom]; [constructor| | |].
  - destruct (u =? 0xFEFF); assumption.
  - destruct (Z.eqb_spec u 0xFEFF); [lia | assumption].
  - destruct (Z.eqb_spec u 0xFEFF); [lia | assumption].
Qed.

(** X3: encoding, decoding and encoding again gives the encoding of the
    string without its leading U+FEFF: after one pass through the codec
    the bytes are stable. *)
Theorem encode_decode_encode (s : jsstring) :
  Forall (fun u => is_code_unit u = true) s ->
  encode (decode (encode s)) = encode (strip_bom s).
Proof.
  intros Hs. apply units_view_of in Hs. unfold decode, encode.
  rewrite utf8_decode_encode by (apply to_scalars_scalar_any; exact Hs).
  rewrite to_scalars_strip by exact Hs.
  rewrite to_scalars_from_scalars; [reflexivity|].
  apply to_scalars_scalar_any, strip_bom_view, Hs.
Qed.

(** X4: [encode] is injective on well-formed strings, a leading U+FEFF
    included: two different well-formed strings never have the same
    bytes. *)
Theorem encode_injective (s1 s2 : jsstring) :
  well_formed s1 = true -> well_formed s2 = true ->
  encode s1 = encode s2 -> s1 = s2.
Proof.
  intros H1 H2 E. unfold encode in E.
  apply (f_equal utf8_decode) in E.
  rewrite !utf8_decode_encode in E by (apply to_scalars_scalar; assumption).
  apply (f_equal from_scalars) in E.
  rewrite !from_to_scalars in E by assumption. exact E.
Qed.

Lemma to_scalars_app s1 s2 :
  wf_view s1 -> to_scalars (s1 ++ s2) = to_scalars s1 ++ to_scalars s2.
Proof.
  induction 1 as [|u rest Hu Hns _ IH|u l rest Hu Hl _ IH]; [reflexivity| |].
  - cbn [app]. rewrite !to_scalars_bmp by assumption. rewrite IH. reflexivity.
  - cbn [app]. rewrite !to_scalars_pair by assumption. rewrite IH. reflexivity.
Qed.

(** X5: [encode] distributes over concatenation when the left part is
    well-formed (its last unit is then not half of a pair with the first
    unit of the right part). *)
Theorem encode_app (s1 s2 : jsstring) :
  well_formed s1 = true -> encode (s1 ++ s2) = encode s1 ++ encode s2.
Proof.
  intros H1. unfold encode, utf8_encode.
  rewrite to_scalars_app by (apply well_formed_view, H1).
  apply flat_map_app.
Qed.

Lemma utf8_bom : utf8_encode_scalar 0xFEFF = [0xEF; 0xBB; 0xBF].
Proof. reflexivity. Qed.

Lemma to_scalars_head_bom s c l :
  units_view s -> to_scalars s = c :: l -> (c = 0xFEFF <-> starts_with_bom s = true).
Proof.
  intros Hv. destruct Hv as [|u rest Hu Hns Hr|u x rest Hu Hl Hr|u rest Hu Hl Hr].
  - discriminate.
  - rewrite to_scalars_bmp by assumption. intros [= <- <-]. cbn [starts_with_bom].
    split; [intros ->; reflexivity | apply Z.eqb_eq].
  - rewrite to_scalars_pair by assumption. intros [= <- <-]. cbn [starts_with_bom].
    split; [lia | intros E; apply Z.eqb_eq in E; lia].
  - rewrite to_scalars_lone by assumption. intros [= <- <-]. cbn [starts_with_bom].
    split; [lia | intros E; apply Z.eqb_eq in E; lia].
Qed.

(** X10: the bytes [encode] produces begin with the byte order mark
    EF BB BF exactly when the string begins with U+FEFF: [encode] adds no
    mark of its own, so [decode] drops a first code point only from such
    strings. *)
Theorem encode_adds_no_bom (s : jsstring) :
  Forall (fun u => is_code_unit u = true) s ->
  (starts_with_bom s = true <-> ∃ rest, encode s = 0xEF :: 0xBB :: 0xBF :: rest).
Proof.
  intros Hs. apply units_view_of in Hs.
  pose proof (to_scalars_scalar_any s Hs) as Hsc. unfold encode, utf8_encode.
  destruct (to_scalars s) as [|c l] eqn:E.
  - split.
    + intros Hb. destruct Hs as [|u rest Hu Hns Hr|u x rest Hu Hl Hr|u rest Hu Hl Hr];
        [discriminate Hb| | |].
      * rewrite to_scalars_bmp in E by assumption. discriminate E.
      * rewrite to_scalars_pair in E by assumption. discriminate E.
      * rewrite to_scalars_lone in E by assumption. discriminate E.
    + intros [rest Hr]. discriminate Hr.
  - rewrite <- (to_scalars_head_bom s c l Hs E). cbn [flat_map]. split.
    + intros ->. rewrite utf8_bom. eexists. reflexivity.
    + intros [rest Hr].
      apply Forall_cons in Hsc as [Hc Hl].
      pose proof (utf8_run_encode_scalar c (flat_map utf8_encode_scalar l) Hc) as H1.
      rewrite Hr in H1.
      pose proof (utf8_run_encode_scalar 0xFEFF rest eq_refl) as H2.
      rewrite utf8_bom in H2. cbn [app] in H2. rewrite H2 in H1. congruence.
Qed.

(** ** Sizes, octets and ASCII *)

Lemma is_byte_spec b : is_byte b = true <-> 0 <= b <= 0xFF.
Proof. unfold is_byte. rewrite andb_true_iff, !Z.leb_le. tauto. Qed.

Lemma is_ascii_spec u : is_ascii u = true <-> 0 <= u <= 0x7F.
Proof. unfold is_ascii. rewrite andb_true_iff, !Z.leb_le. tauto. Qed.

(** The bytes of a scalar value, by the number of bytes. *)
Lemma utf8_encode_scalar_cases c :
  (c <= 0x7F ∧ utf8_encode_scalar c = [c]) ∨
  (0x7F < c <= 0x7FF ∧ utf8_encode_scalar c = [c / 64 + 0xC0; 0x80 + c mod 64]) ∨
  (0x7FF < c <= 0xFFFF ∧
     utf8_encode_scalar c = [c / 4096 + 0xE0; 0x80 + (c / 64) mod 64; 0x80 + c mod 64]) ∨
  (0xFFFF < c ∧
     utf8_encode_scalar c =
       [c / 262144 + 0xF0; 0x80 + (c / 4096) mod 64; 0x80 + (c / 64) mod 64; 0x80 + c mod 64]).
Proof.
  unfold utf8_encode_scalar.
  destruct (Z.leb_spec c 0x7F); [left; split; [lia | reflexivity]|].
  destruct (Z.leb_spec c 0x7FF).
  { right; left. split; [lia|]. rewrite continuation_bytes_1, Z.shiftr_div_pow2 by lia. reflexivity. }
  destruct (Z.leb_spec c 0xFFFF).
  { right; right; left. split; [lia|].
    rewrite continuation_bytes_2, Z.shiftr_div_pow2 by lia. reflexivity. }
  right; right; right. split; [lia|].
  rewrite continuation_bytes_3, Z.shiftr_div_pow2 by lia. reflexivity.
Qed.

Lemma utf8_encode_scalar_bytes c :
  is_scalar c = true -> Forall (fun b => is_byte b = true) (utf8_encode_scalar c).
Proof.
  intros Hc. apply is_scalar_spec in Hc.
  pose proof (Z.mod_pos_bound c 64 ltac:(lia)).
  pose proof (Z.mod_pos_bound (c / 64) 64 ltac:(lia)).
  pose proof (Z.mod_pos_bound (c / 4096) 64 ltac:(lia)).
  pose proof (Z.div_mod c 64 ltac:(lia)).
  pose proof (Z.div_mod c 4096 ltac:(lia)).
  pose proof (Z.mod_pos_bound c 4096 ltac:(lia)).
  pose proof (Z.div_mod c 262144 ltac:(lia)).
  pose proof (Z.mod_pos_bound c 262144 ltac:(lia)).
  destruct (utf8_encode_scalar_cases c) as [[? ->]|[[? ->]|[[? ->]|[? ->]]]];
    repeat constructor; apply is_byte_spec; lia.
Qed.

(** X6: every element [encode] produces is an octet, for any string of
    code units. *)
Theorem encode_bytes (s : jsstring) :
  Forall (fun u => is_code_unit u = true) s ->
  Forall (fun b => is_byte b = true) (encode s).
Proof.
  intros Hs. apply units_view_of, to_scalars_scalar_any in Hs.
  unfold encode, utf8_encode. induction Hs as [|c l Hc _ IH]; [constructor|].
  cbn [flat_map]. apply Forall_app. split; [apply utf8_encode_scalar_bytes, Hc | exact IH].
Qed.

(** X7: [encode] gives at least one byte and at most three bytes per
    code unit. *)
Theorem encode_length (s : jsstring) :
  Forall (fun u => is_code_unit u = true) s ->
  (length s <= length (encode s) <= 3 * length s)%nat.
Proof.
  intros Hs. apply units_view_of in Hs. unfold encode, utf8_encode.
  induction Hs as [|u rest Hu Hns _ IH|u l rest Hu Hl _ IH|u rest Hu Hl _ IH]; [cbn; lia| | |].
  - rewrite to_scalars_bmp by assumption. cbn [flat_map]. rewrite length_app. cbn [length].
    destruct (utf8_encode_scalar_cases u) as [[? ->]|[[? ->]|[[? ->]|[? ->]]]]; cbn [length]; lia.
  - rewrite to_scalars_pair by assumption. cbn [flat_map]. rewrite length_app. cbn [length].
    destruct (utf8_encode_scalar_cases (0x10000 + (u - 0xD800) * 1024 + (l - 0xDC00)))
      as [[? ->]|[[? ->]|[[? ->]|[? ->]]]]; cbn [length]; lia.
  - rewrite to_scalars_lone by assumption. cbn [flat_map]. rewrite length_app.
    change (length (utf8_encode_scalar 0xFFFD)) with 3%nat. cbn [length]. lia.
Qed.

Lemma units_of_scalar_length c : (1 <= length (units_of_scalar c) <= 2)%nat.
Proof. unfold units_of_scalar. destruct (c <=? 0xFFFF); cbn [length]; lia. Qed.

Lemma from_scalars_app l1 l2 : from_scalars (l1 ++ l2) = from_scalars l1 ++ from_scalars l2.
Proof. apply flat_map_app. Qed.

Lemma handle_lead_units b d out :
  handle_lead b = (d, out) ->
  Z.of_nat (length (from_scalars out)) + pending_bytes d <= 1.
Proof.
  unfold handle_lead.
  destruct (in_range 0x00 0x7F b) eqn:E1.
  { intros [= <- <-]. unfold in_range in E1. apply andb_true_iff in E1 as [? ?].
    unfold from_scalars, units_of_scalar. cbn [flat_map].
    destruct (Z.leb_spec b 0xFFFF); [cbn; lia | lia]. }
  destruct (in_range 0xC2 0xDF b); [intros [= <- <-]; cbn; lia|].
  destruct (in_range 0xE0 0xEF b); [intros [= <- <-]; cbn; lia|].
  destruct (in_range 0xF0 0xF4 b); intros [= <- <-]; cbn; lia.
Qed.

Lemma handle_byte_units d b d' out :
  decoder_ok d -> handle_byte d b = (d', out) ->
  Z.of_nat (length (from_scalars out)) + pending_bytes d' <= 1 + pending_bytes d.
Proof.
  intros Hd. unfold handle_byte, pending_bytes at 2.
  destruct (Z.eqb_spec (bytes_needed d) 0) as [E|E].
  { intros Hl. apply handle_lead_units in Hl. lia. }
  destruct Hd as [Hd|(Hn & Hs & _)]; [contradiction|].
  destruct (negb _).
  { destruct (handle_lead b) as [d0 out0] eqn:Hl. intros [= <- <-].
    apply handle_lead_units in Hl. unfold from_scalars in *. cbn [flat_map].
    rewrite length_app. change (length (units_of_scalar 0xFFFD)) with 1%nat. lia. }
  destruct (Z.eqb_spec (bytes_seen d + 1) (bytes_needed d)); intros [= <- <-].
  - unfold from_scalars. cbn [flat_map]. rewrite app_nil_r.
    match goal with |- context [units_of_scalar ?c] => pose proof (units_of_scalar_length c) end.
    unfold pending_bytes. cbn [bytes_needed decoder_init]. cbn [Z.eqb]. lia.
  - unfold pending_bytes. cbn [bytes_needed bytes_seen from_scalars flat_map length].
    destruct (Z.eqb_spec (bytes_needed d) 0); [contradiction|]. lia.
Qed.

Lemma utf8_run_units b : ∀ d,
  decoder_ok d ->
  Z.of_nat (length (from_scalars (utf8_run d b))) <= Z.of_nat (length b) + pending_bytes d.
Proof.
  induction b as [|x rest IH]; intros d Hd; cbn [utf8_run].
  - unfold pending_bytes. destruct (Z.eqb_spec (bytes_needed d) 0); [cbn; lia|].
    destruct Hd as [Hd|(Hn & Hs & _)]; [contradiction|]. cbn. lia.
  - destruct (handle_byte d x) as [d' out] eqn:Hh.
    pose proof (handle_byte_units _ _ _ _ Hd Hh) as Hu.
    destruct (handle_byte_ok _ _ _ _ Hd Hh) as [Hok _].
    specialize (IH d' Hok). rewrite from_scalars_app, length_app. cbn [length]. lia.
Qed.

Lemma strip_bom_length l : (length (strip_bom l) <= length l)%nat.
Proof. destruct l as [|c l]; cbn [strip_bom]; [lia|]. destruct (c =? 0xFEFF); cbn [length]; lia. Qed.

Lemma from_scalars_strip_length l :
  (length (from_scalars (strip_bom l)) <= length (from_scalars l))%nat.
Proof.
  destruct l as [|c l]; cbn [strip_bom]; [lia|].
  destruct (c =? 0xFEFF); [|lia]. unfold from_scalars. cbn [flat_map]. rewrite length_app. lia.
Qed.

(** X8: [decode] never returns more code units than it was given
    bytes. *)
Theorem decode_length (b : bytes) : (length (decode b) <= length b)%nat.
Proof.
  unfold decode, utf8_decode.
  pose proof (from_scalars_strip_length (utf8_run decoder_init b)).
  pose proof (utf8_run_units b decoder_init decoder_init_ok) as Hu.
  change (pending_bytes decoder_init) with 0 in Hu. lia.
Qed.

Lemma encode_ascii_id s : Forall (fun u => is_ascii u = true) s -> encode s = s.
Proof.
  unfold encode, utf8_encode. induction 1 as [|u rest Hu _ IH]; [reflexivity|].
  apply is_ascii_spec in Hu. rewrite to_scalars_bmp by lia. cbn [flat_map]. rewrite IH.
  unfold utf8_encode_scalar. destruct (Z.leb_spec u 0x7F); [reflexivity | lia].
Qed.

Lemma utf8_run_ascii s : Forall (fun u => is_ascii u = true) s -> utf8_run decoder_init s = s.
Proof.
  induction 1 as [|u rest Hu _ IH]; [reflexivity|]. apply is_ascii_spec in Hu.
  rewrite (utf8_run_lead _ _ _ _ (handle_lead_ascii u Hu)). cbn [app]. rewrite IH. reflexivity.
Qed.

Lemma from_scalars_ascii s : Forall (fun u => is_ascii u = true) s -> from_scalars s = s.
Proof.
  unfold from_scalars. induction 1 as [|u rest Hu _ IH]; [reflexivity|]. apply is_ascii_spec in Hu.
  cbn [flat_map]. rewrite IH. unfold units_of_scalar.
  destruct (Z.leb_spec u 0xFFFF); [reflexivity | lia].
Qed.

Lemma strip_bom_ascii s : Forall (fun u => is_ascii u = true) s -> strip_bom s = s.
Proof.
  intros Hs. destruct Hs as [|u rest Hu _]; [reflexivity|]. apply is_ascii_spec in Hu.
  cbn [strip_bom]. destruct (Z.eqb_spec u 0xFEFF); [lia | reflexivity].
Qed.

(** X9: on ASCII text the codec changes nothing: the bytes are the code
    units, in both directions. *)
Theorem ascii_identity (s : jsstring) :
  Forall (fun u => is_ascii u = true) s -> encode s = s ∧ decode s = s.
Proof.
  intros Hs. split; [apply encode_ascii_id, Hs|].
  unfold decode, utf8_decode.
  rewrite utf8_run_ascii, strip_bom_ascii by exact Hs. apply from_scalars_ascii, Hs.
Qed.

(** ** More on the converter *)

Section ConverterMore.
Context {number : Type} `{Host number}.

Lemma toPayload_Some_inv (v : value number) (p : Payload) :
  toPayload v = Return (Some p) ->
  ∃ r, v ≠ VUndefined ∧ superjson_serialize v = Some r ∧
       p = {| metadata := Some (metadata_of r);
              data := Some (encode (JSON_stringify (json r))) |}.
Proof.
  intros Ht. destruct (superjson_serialize v) as [r|] eqn:Hs.
  - assert (Hv : v ≠ VUndefined) by (intros ->; discriminate Ht).
    rewrite (toPayload_defined v r Hv Hs) in Ht. injection Ht as <-.
    exists r. repeat split; assumption.
  - exfalso. destruct v; try discriminate Ht;
      unfold toPayload in Ht; rewrite Hs in Ht; discriminate Ht.
Qed.

(** X11: the metadata of every payload [toPayload] returns has the
    encoding entry, whose bytes decode to the converter's [encodingType],
    and no entry under any key other than the encoding key and
    ['superjson-meta']. *)
Theorem toPayload_metadata_keys (v : value number) (p : Payload) :
  METADATA_ENCODING_KEY ≠ SUPERJSON_META_KEY ->
  toPayload v = Return (Some p) ->
  ∃ m, metadata p = Some m ∧
       decode <$> m !! METADATA_ENCODING_KEY = Some encodingType ∧
       (∀ k, k ≠ METADATA_ENCODING_KEY -> k ≠ SUPERJSON_META_KEY -> m !! k = None) ∧
       (size m <= 2)%nat.
Proof.
  intros Hk Ht. destruct (toPayload_Some_inv v p Ht) as (r & Hv & Hs & ->).
  exists (metadata_of r). split; [reflexivity|]. split; [|split].
  - rewrite metadata_of_encoding by exact Hk. reflexivity.
  - intros k H1 H2. unfold metadata_of. destruct (meta r).
    + rewrite lookup_insert_ne by congruence. apply lookup_singleton_ne. congruence.
    + apply lookup_singleton_ne. congruence.
  - unfold metadata_of. destruct (meta r).
    + rewrite map_size_insert, map_size_singleton.
      destruct (_ !! _); cbn [id]; lia.
    + rewrite map_size_singleton. lia.
Qed.

(** X12: when the dependency returns a [meta], the ['superjson-meta']
    entry of the payload is the UTF-8 encoding of [JSON.stringify meta],
    and it parses back to [meta] as soon as [JSON.parse] reads back what
    [JSON.stringify] wrote. *)
Theorem manifest_entry_content (v : value number) (p : Payload) r mt :
  toPayload v = Return (Some p) ->
  superjson_serialize v = Some r ->
  meta r = Some mt ->
  ∃ m, metadata p = Some m ∧
       m !! SUPERJSON_META_KEY = Some (encode (JSON_stringify mt)) ∧
       (json_text_faithful mt ->
        JSON_parse ∘ decode <$> m !! SUPERJSON_META_KEY = Some (Some mt)).
Proof.
  intros Ht Hs Hm. destruct (toPayload_Some_inv v p Ht) as (r' & Hv & Hs' & ->).
  rewrite Hs in Hs'. injection Hs' as <-.
  exists (metadata_of r). split; [reflexivity|].
  assert (E : metadata_of r !! SUPERJSON_META_KEY = Some (encode (JSON_stringify mt))).
  { unfold metadata_of. rewrite Hm. apply lookup_insert_eq. }
  split; [exact E|]. intros Hf. rewrite E. cbn [fmap option_fmap option_map compose].
  rewrite body_parses_back by exact Hf. reflexivity.
Qed.

Lemma fromPayload_reads (p q : Payload) :
  data p = data q ->
  metadata p ≫= (λ m, m !! SUPERJSON_META_KEY) = metadata q ≫= (λ m, m !! SUPERJSON_META_KEY) ->
  fromPayload p = fromPayload q.
Proof. intros Hd Hm. unfold fromPayload. rewrite Hd, Hm. reflexivity. Qed.

(** X14: [fromPayload] reads no metadata entry but ['superjson-meta']:
    writing or deleting any other key changes nothing, and a metadata
    object without the manifest entry is the same as no metadata. *)
Theorem fromPayload_ignores_other_entries (m : gmap (list Z) (list Z)) (d : option bytes) (k : jsstring) :
  k ≠ SUPERJSON_META_KEY ->
  (∀ x, fromPayload {| metadata := Some (<[ k := x ]> m); data := d |} =
        fromPayload {| metadata := Some m; data := d |}) ∧
  fromPayload {| metadata := Some (delete k m); data := d |} =
    fromPayload {| metadata := Some m; data := d |} ∧
  (m !! SUPERJSON_META_KEY = None ->
   fromPayload {| metadata := None; data := d |} = fromPayload {| metadata := Some m; data := d |}).
Proof.
  intros Hk. split; [|split].
  - intros x. apply fromPayload_reads; [reflexivity|]. cbn [metadata mbind option_bind].
    apply lookup_insert_ne. exact Hk.
  - apply fromPayload_reads; [reflexivity|]. cbn [metadata mbind option_bind].
    apply lookup_delete_ne. exact Hk.
  - intros Hm. apply fromPayload_reads; [reflexivity|]. cbn [metadata mbind option_bind].
    symmetry. exact Hm.
Qed.

(** X15: a ['superjson-meta'] entry that is present but empty is not
    taken as absent: it goes to [JSON.parse], whose failure on the empty
    text is thrown, even though the body is valid JSON. *)
Theorem empty_manifest_entry_is_parsed (p : Payload) d j m :
  data p = Some d ->
  JSON_parse (decode d) = Some j ->
  metadata p = Some m ->
  m !! SUPERJSON_META_KEY = Some [] ->
  JSON_parse [] = None ->
  fromPayload p = Throw SyntaxError.
Proof.
  intros Hd Hj Hm Hraw Hp. destruct p as [mm dd]. cbn [data metadata] in *. subst.
  rewrite (fromPayload_manifest _ _ []) by exact Hraw.
  rewrite Hj. change (decode []) with (@nil Z). rewrite Hp. reflexivity.
Qed.

(** X16: a payload [toPayload] produced, read without its manifest entry
    (deleted, or with no metadata at all), decodes to the plain JSON tree
    of the value: a reader that knows nothing of the manifest still gets
    the degraded value. *)
Theorem manifest_stripped_degrades (v : value number) (p : Payload) r :
  toPayload v = Return (Some p) ->
  superjson_serialize v = Some r ->
  json_text_faithful (json r) ->
  (∀ m, metadata p = Some m ->
     fromPayload {| metadata := Some (delete SUPERJSON_META_KEY m); data := data p |} =
       Return (value_of_json (json r))) ∧
  fromPayload {| metadata := None; data := data p |} = Return (value_of_json (json r)).
Proof.
  intros Ht Hs Hf. destruct (toPayload_Some_inv v p Ht) as (r' & Hv & Hs' & ->).
  rewrite Hs in Hs'. injection Hs' as <-. cbn [data metadata]. split.
  - intros m [= <-]. rewrite fromPayload_plain.
    + rewrite body_parses_back by exact Hf. reflexivity.
    + cbn [mbind option_bind]. apply lookup_delete_eq.
  - rewrite fromPayload_plain by reflexivity.
    rewrite body_parses_back by exact Hf. reflexivity.
Qed.

(** X17: a payload whose body is [encode (JSON.stringify j)] and whose
    metadata has no manifest entry, as a plain JSON converter writes it,
    decodes to [j]. *)
Theorem legacy_payload_decodes (j : JSONValue number) (mm : option (gmap (list Z) (list Z))) :
  json_text_faithful j ->
  mm ≫= (λ m, m !! SUPERJSON_META_KEY) = None ->
  fromPayload {| metadata := mm; data := Some (encode (JSON_stringify j)) |} =
    Return (value_of_json j).
Proof.
  intros Hf Hm. rewrite fromPayload_plain by exact Hm.
  rewrite body_parses_back by exact Hf. reflexivity.
Qed.

End ConverterMore.

(** ** The further properties on the reference host *)

Lemma scenario_toPayload : @toPayload Z reference_host scenario = Return (Some scenario_payload).
Proof. apply (toPayload_defined (H := reference_host)); [discriminate | vm_compute; reflexivity]. Defined.

Lemma decode_encode_any_witness :
  Forall (fun u => is_code_unit u = true) lone_surrogates ∧
  decode (encode lone_surrogates) = strip_bom (toWellFormed lone_surrogates) ∧
  (well_formed lone_surrogates = true -> toWellFormed lone_surrogates = lone_surrogates).
Proof.
  split; [repeat constructor|]. apply (decode_encode_any lone_surrogates). repeat constructor.
Defined.

Example lone_surrogates_replaced :
  decode (encode lone_surrogates) = [0x61; 0xFFFD; 0x62; 0xFFFD].
Proof. reflexivity. Qed.

Lemma encode_decode_encode_witness :
  Forall (fun u => is_code_unit u = true) lone_surrogates ∧
  encode (decode (encode lone_surrogates)) = encode (strip_bom lone_surrogates).
Proof.
  split; [repeat constructor|]. apply (encode_decode_encode lone_surrogates). repeat constructor.
Defined.

Lemma encode_injective_witness :
  well_formed sample_string = true ∧ well_formed (str "json/plain") = true ∧
  (encode sample_string = encode (str "json/plain") -> sample_string = str "json/plain").
Proof.
  split; [reflexivity|]. split; [reflexivity|].
  apply (encode_injective sample_string (str "json/plain")); reflexivity.
Defined.

Lemma encode_app_witness :
  well_formed sample_string = true ∧
  encode (sample_string ++ lone_surrogates) = encode sample_string ++ encode lone_surrogates.
Proof. split; [reflexivity|]. apply (encode_app sample_string lone_surrogates). reflexivity. Defined.

Lemma encode_bytes_witness :
  Forall (fun u => is_code_unit u = true) lone_surrogates ∧
  Forall (fun b => is_byte b = true) (encode lone_surrogates).
Proof. split; [repeat constructor|]. apply (encode_bytes lone_surrogates). repeat constructor. Defined.

Lemma encode_length_witness :
  Forall (fun u => is_code_unit u = true) sample_string ∧
  (length sample_string <= length (encode sample_string) <= 3 * length sample_string)%nat.
Proof. split; [repeat constructor|]. apply (encode_length sample_string). repeat constructor. Defined.

Lemma ascii_identity_witness :
  Forall (fun u => is_ascii u = true) (str "json/plain") ∧
  encode (str "json/plain") = str "json/plain" ∧ decode (str "json/plain") = str "json/plain".
Proof. split; [repeat constructor|]. apply (ascii_identity (str "json/plain")). repeat constructor. Defined.

Lemma toPayload_metadata_keys_witness :
  ∃ m, metadata scenario_payload = Some m ∧
       decode <$> m !! str "encoding" = Some encodingType ∧
       (∀ k, k ≠ str "encoding" -> k ≠ SUPERJSON_META_KEY -> m !! k = None) ∧
       (size m <= 2)%nat.
Proof.
  apply (toPayload_metadata_keys (H := reference_host) scenario scenario_payload).
  - exact reference_keys_distinct.
  - exact scenario_toPayload.
Defined.

Lemma manifest_entry_content_witness :
  ∃ m, metadata scenario_payload = Some m ∧
       m !! SUPERJSON_META_KEY = Some (encode (Reference.stringify scenario_meta)) ∧
       (@json_text_faithful Z reference_host scenario_meta ->
        Reference.parse ∘ decode <$> m !! SUPERJSON_META_KEY = Some (Some scenario_meta)).
Proof.
  apply (manifest_entry_content (H := reference_host) scenario scenario_payload scenario_result
           scenario_meta).
  - exact scenario_toPayload.
  - vm_compute. reflexivity.
  - reflexivity.
Defined.

Lemma fromPayload_ignores_other_entries_witness :
  str "encoding" ≠ SUPERJSON_META_KEY ∧
  (∀ x, @fromPayload Z reference_host
          {| metadata := Some (<[ str "encoding" := x ]> ∅); data := Some (encode legacy_body) |} =
        @fromPayload Z reference_host {| metadata := Some ∅; data := Some (encode legacy_body) |}) ∧
  @fromPayload Z reference_host
    {| metadata := Some (delete (str "encoding") ∅); data := Some (encode legacy_body) |} =
    @fromPayload Z reference_host {| metadata := Some ∅; data := Some (encode legacy_body) |} ∧
  ((∅ : gmap (list Z) (list Z)) !! SUPERJSON_META_KEY = None ->
   @fromPayload Z reference_host {| metadata := None; data := Some (encode legacy_body) |} =
   @fromPayload Z reference_host {| metadata := Some ∅; data := Some (encode legacy_body) |}).
Proof.
  split; [exact reference_keys_distinct|].
  apply (fromPayload_ignores_other_entries (H := reference_host) ∅ (Some (encode legacy_body))
           (str "encoding")).
  exact reference_keys_distinct.
Defined.

Lemma empty_manifest_entry_is_parsed_witness :
  @fromPayload Z reference_host empty_manifest_payload = Throw SyntaxError.
Proof.
  eapply (empty_manifest_entry_is_parsed (H := reference_host) empty_manifest_payload).
  - reflexivity.
  - vm_compute. reflexivity.
  - reflexivity.
  - apply lookup_insert_eq.
  - vm_compute. reflexivity.
Defined.

Lemma manifest_stripped_degrades_witness :
  (∀ m, metadata scenario_payload = Some m ->
     @fromPayload Z reference_host
       {| metadata := Some (delete SUPERJSON_META_KEY m); data := data scenario_payload |} =
       Return (value_of_json (json scenario_result))) ∧
  @fromPayload Z reference_host {| metadata := None; data := data scenario_payload |} =
    Return (value_of_json (json scenario_result)).
Proof.
  apply (manifest_stripped_degrades (H := reference_host) scenario scenario_payload scenario_result).
  - exact scenario_toPayload.
  - vm_compute. reflexivity.
  - apply reference_text_faithful; vm_compute; reflexivity.
Defined.

Lemma legacy_payload_decodes_witness :
  @fromPayload Z reference_host
    {| metadata := Some {[ str "encoding" := encode (str "json/plain") ]};
       data := Some (encode (Reference.stringify (json scenario_result))) |} =
    Return (value_of_json (json scenario_result)).
Proof.
  apply (legacy_payload_decodes (H := reference_host) (json scenario_result)).
  - apply reference_text_faithful; vm_compute; reflexivity.
  - cbn [mbind option_bind]. apply lookup_singleton_ne. exact reference_keys_distinct.
Defined.

Lemma encode_adds_no_bom_witness :
  Forall (fun u => is_code_unit u = true) sample_string ∧
  (starts_with_bom sample_string = true <->
   ∃ rest, encode sample_string = 0xEF :: 0xBB :: 0xBF :: rest).
Proof. split; [repeat constructor|]. apply (encode_adds_no_bom sample_string). repeat constructor. Defined.
